(** * Image recognition engine: keyword matching, dispatch and error handling

    A shallow embedding of [image_recognition/image_recognition_main.py].
    Python [str] values are modelled as UTF-8 byte strings, Python [float]s as
    binary64 primitive floats, Python [dict]s as insertion-ordered association
    lists, and calls into OpenCV, the file system and the cloud vision service
    as functions supplied by an [Externals] record whose uses are logged. *)

Set Warnings "-inexact-float".
From Stdlib Require Import List String Ascii ZArith Lia Bool.
From Stdlib Require Import Permutation Sorted Floats DecimalString.
Import ListNotations.

Local Open Scope string_scope.
Local Open Scope Z_scope.
Local Open Scope list_scope.

(* ================================================================== *)
(** ** Python floats *)

(** [a >= b] on floats, as the proposition the comparison decides. *)
Definition fge (a b : float) : Prop := (b <=? a)%float = true.

(** [int(x)] on a float: truncation toward zero; [ValueError] on NaN and
    [OverflowError] on an infinity are both reported as [None]. *)
Definition float_trunc (x : float) : option Z :=
  match Prim2SF x with
  | S754_zero _ => Some 0
  | S754_finite s m e =>
      let mag := if 0 <=? e then Z.pos m * 2 ^ e else Z.pos m / 2 ^ (- e) in
      Some (if s then - mag else mag)
  | S754_infinity _ | S754_nan => None
  end.

(** Conversion of a Python [int] to a float (exact below [2^53], which
    covers pixel counts and image dimensions). *)
Definition float_of_Z (z : Z) : float :=
  if z <? 0 then (- of_uint63 (Uint63.of_Z (- z)))%float
  else of_uint63 (Uint63.of_Z z).

(* ================================================================== *)
(** ** Python strings *)

Fixpoint starts_with (p s : string) : bool :=
  match p, s with
  | EmptyString, _ => true
  | String a p', String b s' => Ascii.eqb a b && starts_with p' s'
  | String _ _, EmptyString => false
  end.

(** [p in s]: [p] occurs in [s] as a contiguous substring.  Strings hold
    the UTF-8 encoding of the Python text; an encoded string occurs in
    another one at character boundaries only, so the test on bytes agrees
    with Python's test on characters. *)
Fixpoint contains (p s : string) : bool :=
  starts_with p s ||
  match s with
  | EmptyString => false
  | String _ s' => contains p s'
  end.

(** [str.lower] restricted to ASCII text: the letters [A]-[Z] are mapped
    to [a]-[z], every other byte is kept. *)
Definition ascii_lower_char (c : ascii) : ascii :=
  let n := nat_of_ascii c in
  if (65 <=? n)%nat && (n <=? 90)%nat then ascii_of_nat (n + 32) else c.

Fixpoint ascii_lower (s : string) : string :=
  match s with
  | EmptyString => EmptyString
  | String c s' => String (ascii_lower_char c) (ascii_lower s')
  end.

(** [f"{n}"] for an [int]. *)
Definition str_of_int (z : Z) : string := NilEmpty.string_of_int (Z.to_int z).

(** [p] occurs inside [s]: what [contains] decides. *)
Definition occurs_in (p s : string) : Prop :=
  exists pre post, s = (pre ++ p ++ post)%string.

(* ================================================================== *)
(** ** Python dicts: insertion-ordered, keys unique *)

Section Dict.
Context {K V : Type} (keqb : K -> K -> bool).

Definition dict := list (K * V).

Fixpoint dict_get (k : K) (d : dict) : option V :=
  match d with
  | [] => None
  | (k', v) :: d' => if keqb k k' then Some v else dict_get k d'
  end.

(** [d[k] = v]: an existing key keeps its position and takes the new
    value; a new key goes to the end. *)
Fixpoint dict_set (k : K) (v : V) (d : dict) : dict :=
  match d with
  | [] => [(k, v)]
  | (k', v') :: d' =>
      if keqb k k' then (k', v) :: d' else (k', v') :: dict_set k v d'
  end.

(** [{key(x): val(x) for x in xs}] *)
Definition dict_comprehension {A : Type} (key : A -> K) (val : A -> V)
  (xs : list A) : dict :=
  fold_left (fun d x => dict_set (key x) (val x) d) xs [].

Definition keys (d : dict) : list K := map fst d.
End Dict.

Arguments dict : clear implicits.

(* ================================================================== *)
(** ** [sorted(xs, key=..., reverse=True)] *)

Section Sorted.
Context {A : Type} (key : A -> float).

(** Stable insertion by [<] on keys: [x] goes before the first element
    whose key is strictly greater. *)
Fixpoint insert_by_key (x : A) (l : list A) : list A :=
  match l with
  | [] => [x]
  | y :: l' =>
      if (key x <? key y)%float then x :: l else y :: insert_by_key x l'
  end.

Definition sort_by_key (l : list A) : list A :=
  fold_left (fun acc x => insert_by_key x acc) l [].

(** [list.sort(reverse=True)] reverses the list, sorts it stably in
    ascending order and reverses the outcome, so that equal keys keep
    their original order.  On keys without NaN a stable sort has one
    possible outcome, which is the one computed here. *)
Definition sorted_reverse (l : list A) : list A :=
  rev (sort_by_key (rev l)).
End Sorted.

(* ================================================================== *)
(** ** Exceptions and logged effects *)

(** An instance of Python's [Exception]; [exc_str] is [str(e)]. *)
Record exception := Exception { exc_type : string; exc_str : string }.

(** The calls that leave the process or touch the file system, OpenCV's
    image-processing primitives, and model inference. *)
Inductive event :=
| ev_imread (path : string)            (* cv2.imread *)
| ev_open_read (path : string)         (* io.open(path, 'rb').read() *)
| ev_cvtColor | ev_Canny | ev_findContours | ev_contourArea
| ev_inRange | ev_countNonZero        (* OpenCV primitives *)
| ev_blobFromImage                     (* cv2.dnn.blobFromImage *)
| ev_forward                           (* net.setInput(blob); net.forward() *)
| ev_readNet (path : string)           (* cv2.dnn.readNetFromTensorflow *)
| ev_load_labels (path : string)       (* reading the label table file *)
| ev_client_init                       (* vision.ImageAnnotatorClient() *)
| ev_label_detection.                  (* client.label_detection: network *)

Definition is_file_read (e : event) : bool :=
  match e with
  | ev_imread _ | ev_open_read _ | ev_readNet _ | ev_load_labels _ => true
  | _ => false
  end.

Definition is_network_call (e : event) : bool :=
  match e with
  | ev_label_detection | ev_client_init => true
  | _ => false
  end.

Definition is_model_inference (e : event) : bool :=
  match e with
  | ev_blobFromImage | ev_forward => true
  | _ => false
  end.

(** Any step of either analysis pipeline. *)
Definition is_analysis (e : event) : bool :=
  match e with
  | ev_cvtColor | ev_Canny | ev_findContours | ev_contourArea
  | ev_inRange | ev_countNonZero | ev_blobFromImage | ev_forward => true
  | _ => false
  end.

(** A Python computation: the events it performed, and how it ended. *)
Definition Py (A : Type) : Type := list event * (exception + A).

Definition ret {A} (a : A) : Py A := ([], inr a).
Definition raise {A} (e : exception) : Py A := ([], inl e).

Definition bind {A B} (c : Py A) (k : A -> Py B) : Py B :=
  match c with
  | (t, inl e) => (t, inl e)
  | (t, inr a) => let (t', r) := k a in (t ++ t', r)
  end.

(** An external call: logged, then answered by the backend. *)
Definition call {A} (ev : event) (answer : exception + A) : Py A :=
  ([ev], answer).

(** [try: body  except Exception as e: handler(e)] *)
Definition try_except {A} (body : Py A) (handler : exception -> Py A) : Py A :=
  match body with
  | (t, inl e) => let (t', r) := handler e in (t ++ t', r)
  | (t, inr a) => (t, inr a)
  end.

Definition trace {A} (c : Py A) : list event := fst c.
Definition outcome {A} (c : Py A) : exception + A := snd c.

Declare Scope py_scope.
Delimit Scope py_scope with py.
Notation "x <- c ;; k" := (bind c (fun x => k))
  (at level 61, c at next level, right associativity) : py_scope.
Notation "' pat <- c ;; k" := (bind c (fun x => match x with pat => k end))
  (at level 61, pat pattern, c at next level, right associativity) : py_scope.

Local Open Scope py_scope.

(** [[f(x) for x in xs]] with an effectful [f]. *)
Fixpoint for_each {A B} (f : A -> Py B) (xs : list A) : Py (list B) :=
  match xs with
  | [] => ret []
  | x :: xs' => y <- f x ;; ys <- for_each f xs' ;; ret (y :: ys)
  end.

(* ================================================================== *)
(** ** Data model *)

(** A numpy array: its shape and its flattened contents. *)
Record ndarray := { shape : list Z; data : list Z }.

(** One row [detections[0, 0, i, :]] of the detector's output tensor. *)
Module Row.
Record t := { image_id : float; class_id : float; confidence : float;
              x0 : float; y0 : float; x1 : float; y1 : float }.
End Row.

(** A loaded [cv2.dnn] network: what [forward] answers for an input blob. *)
Record Net := { forward : ndarray -> exception + list Row.t }.

Module LabelAnnotation.
Record t := { description : string; score : float }.
End LabelAnnotation.

Module Response.
Record t := { label_annotations : list LabelAnnotation.t;
              error_message : string }.
End Response.

(** A cloud vision client: what [label_detection] answers for image bytes. *)
Record Client := { label_detection : string -> exception + Response.t }.

Module BoundingBox.
Record t := { x_min : Z; y_min : Z; x_max : Z; y_max : Z }.
End BoundingBox.

Module Detection.
Record t := { class : string; confidence : float;
              bounding_box : BoundingBox.t }.
End Detection.

Module Anomaly.
Record t := { type : string; label : string; score : float }.
End Anomaly.

Module SortedLabel.
Record t := { label : string; score : float }.
End SortedLabel.

Module Dimensions.
Record t := { width : Z; height : Z }.
End Dimensions.

Module Contours.
Record t := { total : Z; significant : Z }.
End Contours.

Module Colors.
Record t := { dominant : string; distribution : dict string float }.
End Colors.

(** [{"error": ..., "message": ...}]; [message] is present only in the
    service-unavailable result. *)
Module ErrorResult.
Record t := { error : string; message : option string }.
End ErrorResult.

Module BasicAnalysis.
Record t := { success : bool; type : string; dimensions : Dimensions.t;
              contours : Contours.t; colors : Colors.t;
              possible_diagnoses : list string }.
End BasicAnalysis.

Module ModelAnalysis.
Record t := { success : bool; type : string; dimensions : Dimensions.t;
              detections : list Detection.t; detected_count : Z;
              possible_diagnoses : list string }.
End ModelAnalysis.

(** The result of the engine's [detect_labels]; [warning] is present only
    when the service reported an error message. *)
Module LabelAnalysis.
Record t := { success : bool; labels : dict string float;
              anomalies_detected : bool; anomalies : list Anomaly.t;
              sorted_labels : list SortedLabel.t; car_related : bool;
              warning : option string }.
End LabelAnalysis.

(** The result of the standalone [detect_labels]. *)
Module LabelDetection.
Record t := { success : bool; labels : dict string float;
              anomalies_detected : bool; anomalies : list Anomaly.t;
              car_related : bool }.
End LabelDetection.

(** What [analyze_image] returns. *)
Inductive AnalysisResult :=
| AnalysisError (e : ErrorResult.t)
| Basic (r : BasicAnalysis.t)
| ModelBased (r : ModelAnalysis.t).

(** What the engine's [detect_labels] returns. *)
Inductive LabelResult :=
| LabelError (e : ErrorResult.t)
| Labels (r : LabelAnalysis.t).

(** What the standalone [detect_labels] returns. *)
Inductive LabelDetectionResult :=
| LabelDetectionError (e : ErrorResult.t)
| LabelsDetected (r : LabelDetection.t).

(* ================================================================== *)
(** ** What the module gets from outside *)

(** The builtins, the environment and the libraries the module calls.
    Label-table parsing is embedded on its own ([_load_labels] below);
    for the constructor, the entries it stores in [self.labels] before it
    returns, or before an exception interrupts it, are given by
    [load_label_file]. *)
Record Externals := {
  str_lower : string -> string;                       (* str.lower *)
  os_getenv : string -> option string;
  float_of_str : string -> option float;              (* float(s), None: ValueError *)
  os_path_exists : string -> bool;
  cv2_dnn_readNetFromTensorflow : string -> exception + Net;
  load_label_file : string -> dict Z string;
  vision_ImageAnnotatorClient : exception + Client;
  cv2_imread : string -> exception + option ndarray;  (* None: unreadable *)
  cv2_cvtColor : ndarray -> string -> exception + ndarray;
  cv2_Canny : ndarray -> Z -> Z -> exception + ndarray;
  cv2_findContours : ndarray -> exception + list ndarray;
  cv2_contourArea : ndarray -> exception + float;
  cv2_inRange : ndarray -> list Z -> list Z -> exception + ndarray;
  cv2_countNonZero : ndarray -> exception + Z;
  cv2_dnn_blobFromImage : ndarray -> exception + ndarray;
  io_open_read : string -> exception + string;        (* the file's bytes *)
  int_cast_invalid : float -> Z   (* C cast of a float no int64 represents *)
}.

(** [int(x)] for a float [x]. *)
Definition py_int (x : float) : Py Z :=
  match float_trunc x with
  | Some z => ret z
  | None =>
      if is_nan x
      then raise (Exception "ValueError" "cannot convert float NaN to integer")
      else raise (Exception "OverflowError"
                    "cannot convert float infinity to integer")
  end.

(** [ndarray.astype('int')] on one element. *)
Definition astype_int (X : Externals) (x : float) : Z :=
  match float_trunc x with
  | Some z =>
      if (- 2 ^ 63 <=? z) && (z <? 2 ^ 63) then z else int_cast_invalid X x
  | None => int_cast_invalid X x
  end.

(** [n / d] on two [int]s. *)
Definition true_div (n d : Z) : Py float :=
  if d =? 0 then raise (Exception "ZeroDivisionError" "division by zero")
  else ret (float_of_Z n / float_of_Z d)%float.

(** [height, width, _ = image.shape] *)
Definition unpack_shape (image : ndarray) : Py (Z * Z) :=
  match shape image with
  | [height; width; _] => ret (height, width)
  | _ :: _ :: _ :: _ :: _ =>
      raise (Exception "ValueError" "too many values to unpack (expected 3)")
  | s =>
      raise (Exception "ValueError"
               ("not enough values to unpack (expected 3, got "
                  ++ str_of_int (Z.of_nat (List.length s)) ++ ")")%string)
  end.

(** [max(xs, key=...)]: the first element whose key no later one exceeds. *)
Definition max_by_key {A} (key : A -> float) (xs : list A) : Py A :=
  match xs with
  | [] => raise (Exception "ValueError" "max() arg is an empty sequence")
  | x :: xs' =>
      ret (fold_left (fun best y => if (key best <? key y)%float then y else best)
             xs' x)
  end.

(** The truth value of a [str]: false on the empty string only. *)
Definition truthy_str (s : string) : bool :=
  match s with EmptyString => false | _ => true end.

(** The path that passes [if image_path:], for an argument that is [None]
    or a [str]: a path that was given and is not empty. *)
Definition supplied_path (image_path : option string) : option string :=
  match image_path with
  | Some path => if truthy_str path then Some path else None
  | None => None
  end.

(* ================================================================== *)
(** ** class ImageRecognitionEngine *)

Module ImageRecognitionEngine.

(** The attributes [__init__] sets.  [vision_client] stays unset when the
    client could not be constructed. *)
Record t := {
  model_path : string;
  labels_path : string;
  confidence_threshold : float;
  net : option Net;
  labels : dict Z string;
  initialized : bool;
  vision_client : option Client;
  vision_api_available : bool
}.

Definition anomaly_keywords : list string := [
  "damage"; "damaged"; "broken"; "crack"; "cracked"; "dent"; "dented";
  "scratch"; "scratched"; "rust"; "rusty"; "corrosion"; "leak"; "leaking";
  "worn"; "wear"; "tear"; "bent"; "burnt"; "burned"; "melted"; "flat";
  "accident"; "collision"; "problem"; "issue"; "fault"; "error"; "warning";
  "dommage"; "endommagé"; "cassé"; "fissure"; "fissuré"; "bosselé"; "bosse";
  "rayure"; "rayé"; "rouille"; "rouillé"; "corrosion"; "fuite"; "usé";
  "usure"; "déchirure"; "plié"; "brûlé"; "fondu"; "dégonflé"; "à plat";
  "accident"; "collision"; "problème"; "panne"; "défaut"; "erreur"; "alerte"
].

Definition car_keywords : list string := [
  "car"; "automobile"; "vehicle"; "motor"; "engine"; "wheel"; "tire";
  "brake"; "suspension"; "transmission"; "exhaust"; "battery"; "headlight";
  "taillight"; "windshield"; "hood"; "trunk"; "bumper"; "door"; "dashboard";
  "steering"; "airbag"; "seat"; "seatbelt"; "mirror"; "wiper"; "radiator";
  "voiture"; "automobile"; "véhicule"; "moteur"; "roue"; "pneu"; "frein";
  "suspension"; "transmission"; "échappement"; "batterie"; "phare"; "feu";
  "pare-brise"; "capot"; "coffre"; "pare-choc"; "portière"; "tableau de bord";
  "volant"; "airbag"; "siège"; "ceinture"; "rétroviseur"; "essuie-glace";
  "radiateur"
].

Definition brake_advisory : string :=
  "Vérifiez l'état des plaquettes et des disques de frein".

Definition nothing_recognized : string :=
  "Aucun objet automobile reconnu dans l'image".

Definition component_diagnoses : dict string string := [
  ("frein", brake_advisory);
  ("pneu", "Inspectez l'usure et la pression des pneus");
  ("huile", "Contrôlez le niveau et la qualité de l'huile");
  ("moteur", "Examinez l'état général du moteur");
  ("batterie", "Vérifiez les connections et la charge de la batterie");
  ("phare", "Assurez-vous que tous les phares fonctionnent correctement")
].

Definition color_ranges : dict string (list Z * list Z) := [
  ("rouge", ([0; 100; 100], [10; 255; 255]));
  ("jaune", ([20; 100; 100], [35; 255; 255]));
  ("vert", ([35; 50; 50], [85; 255; 255]));
  ("bleu", ([85; 50; 50], [130; 255; 255]))
].

Section Methods.
Variable X : Externals.

(** The two nested loops append one entry for each keyword of the list,
    in list order, and each label it occurs in, in the map's order. *)
Definition matching_anomalies (keywords : list string)
  (labels : dict string float) : list Anomaly.t :=
  flat_map (fun keyword =>
    flat_map (fun '(label, score) =>
      if contains keyword (str_lower X label)
      then [{| Anomaly.type := keyword; Anomaly.label := label;
               Anomaly.score := score |}]
      else []) labels) keywords.

Definition _detect_anomalies (labels : dict string float)
  : list Anomaly.t :=
  let anomalies := matching_anomalies anomaly_keywords labels in
  sorted_reverse Anomaly.score anomalies.

(** The two nested loops return [True] at the first keyword and label
    that match. *)
Definition any_keyword_matches (keywords : list string)
  (labels : dict string float) : bool :=
  existsb (fun keyword =>
    existsb (fun label => contains keyword (str_lower X label))
      (keys labels)) keywords.

Definition _is_car_related (labels : dict string float) : bool :=
  any_keyword_matches car_keywords labels.

Definition _generate_diagnoses (detections : list Detection.t)
  : list string :=
  let detected_classes :=
    map (fun d => str_lower X (Detection.class d)) detections in
  let mentions c := existsb (String.eqb c) detected_classes in
  match detected_classes with
  | [] => [nothing_recognized]
  | _ =>
      let diagnoses :=
        flat_map (fun '(component, diagnosis) =>
          if existsb (contains component) detected_classes
          then [diagnosis] else []) component_diagnoses in
      let diagnoses := diagnoses ++
        (if mentions "rouille" || mentions "corrosion"
         then ["Présence de corrosion détectée - vérifiez l'étendue des dommages"]
         else []) in
      let diagnoses := diagnoses ++
        (if mentions "fuite" || mentions "liquide"
         then ["Fuite de liquide détectée - vérifiez le type et la source"]
         else []) in
      let diagnoses := diagnoses ++
        (if mentions "fissure"
         then ["Fissure détectée - inspectez la gravité et l'emplacement"]
         else []) in
      match diagnoses with
      | [] => ["Composants automobiles détectés, mais aucun problème spécifique identifié"]
      | _ => diagnoses
      end
  end.

Definition _basic_image_analysis (image : ndarray) : Py BasicAnalysis.t :=
  '(height, width) <- unpack_shape image ;;
  gray <- call ev_cvtColor (cv2_cvtColor X image "COLOR_BGR2GRAY") ;;
  edges <- call ev_Canny (cv2_Canny X gray 50 150) ;;
  contours <- call ev_findContours (cv2_findContours X edges) ;;
  areas <- for_each (fun c => call ev_contourArea (cv2_contourArea X c))
             contours ;;
  let significant_contours := filter (fun a => (500 <? a)%float) areas in
  hsv <- call ev_cvtColor (cv2_cvtColor X image "COLOR_BGR2HSV") ;;
  percentages <-
    for_each (fun '(color_name, (lower, upper)) =>
      mask <- call ev_inRange (cv2_inRange X hsv lower upper) ;;
      count <- call ev_countNonZero (cv2_countNonZero X mask) ;;
      ratio <- true_div count (height * width) ;;
      ret (color_name, (ratio * 100)%float)) color_ranges ;;
  let color_detection :=
    dict_comprehension String.eqb fst snd percentages in
  dominant_color <- max_by_key snd color_detection ;;
  ret {| BasicAnalysis.success := true;
         BasicAnalysis.type := "basic_analysis";
         BasicAnalysis.dimensions :=
           {| Dimensions.width := width; Dimensions.height := height |};
         BasicAnalysis.contours :=
           {| Contours.total := Z.of_nat (List.length contours);
              Contours.significant :=
                Z.of_nat (List.length significant_contours) |};
         BasicAnalysis.colors :=
           {| Colors.dominant :=
                if (5 <? snd dominant_color)%float
                then fst dominant_color else "indéterminé";
              Colors.distribution := color_detection |};
         BasicAnalysis.possible_diagnoses := [
           "Image analysée avec capacités basiques uniquement";
           "Pour une analyse plus précise, veuillez configurer un modèle de détection"
         ] |}.

(** One iteration of the loop over the detector's rows: the entries it
    appends to [results].  The confidence, a float32 of the tensor, and the
    threshold, a Python float, are compared by their values as binary64
    numbers, as numpy 1 compares them; [NumpyComparison] below has the
    same loop for any comparison. *)
Definition row_detections (self : t) (width height : Z) (row : Row.t)
  : Py (list Detection.t) :=
  let confidence := Row.confidence row in
  if (confidence_threshold self <? confidence)%float then
    class_id <- py_int (Row.class_id row) ;;
    let class_name :=
      match dict_get Z.eqb class_id (labels self) with
      | Some name => name
      | None => ("Classe " ++ str_of_int class_id)%string
      end in
    let scaled v dim := astype_int X (v * float_of_Z dim)%float in
    ret [{| Detection.class := class_name;
            Detection.confidence := confidence;
            Detection.bounding_box :=
              {| BoundingBox.x_min := scaled (Row.x0 row) width;
                 BoundingBox.y_min := scaled (Row.y0 row) height;
                 BoundingBox.x_max := scaled (Row.x1 row) width;
                 BoundingBox.y_max := scaled (Row.y1 row) height |} |}]
  else ret [].

Definition _model_based_analysis (self : t) (image : ndarray)
  : Py ModelAnalysis.t :=
  '(height, width) <- unpack_shape image ;;
  blob <- call ev_blobFromImage (cv2_dnn_blobFromImage X image) ;;
  network <- match net self with
             | Some n => ret n
             | None => raise (Exception "AttributeError"
                 "'NoneType' object has no attribute 'setInput'")
             end ;;
  detections <- call ev_forward (forward network blob) ;;
  per_row <- for_each (row_detections self width height) detections ;;
  let results := List.concat per_row in
  let possible_diagnoses := _generate_diagnoses results in
  ret {| ModelAnalysis.success := true;
         ModelAnalysis.type := "model_based_analysis";
         ModelAnalysis.dimensions :=
           {| Dimensions.width := width; Dimensions.height := height |};
         ModelAnalysis.detections := results;
         ModelAnalysis.detected_count := Z.of_nat (List.length results);
         ModelAnalysis.possible_diagnoses := possible_diagnoses |}.

Definition error_result (msg : string) : ErrorResult.t :=
  {| ErrorResult.error := msg; ErrorResult.message := None |}.

(** The branch on whether a model was loaded. *)
Definition dispatch (self : t) (image : ndarray) : Py AnalysisResult :=
  match net self with
  | None => r <- _basic_image_analysis image ;; ret (Basic r)
  | Some _ => r <- _model_based_analysis self image ;; ret (ModelBased r)
  end.

Definition analyze_image (self : t) (image_path : option string)
  (image_array : option ndarray) : Py AnalysisResult :=
  if negb (initialized self) then
    ret (AnalysisError
           (error_result "Moteur d'analyse d'image non initialisé correctement"))
  else
    try_except
      (match supplied_path image_path with
       | Some path =>
           loaded <- call (ev_imread path) (cv2_imread X path) ;;
           match loaded with
           | None =>
               ret (AnalysisError (error_result
                      ("Impossible de charger l'image: " ++ path)%string))
           | Some image => dispatch self image
           end
       | None =>
           match image_array with
           | Some image => dispatch self image
           | None => ret (AnalysisError (error_result "Aucune image fournie"))
           end
       end)
      (fun e => ret (AnalysisError (error_result
         ("Erreur lors de l'analyse de l'image: " ++ exc_str e)%string))).

(** [{label.description.lower(): float(label.score) for label in labels}] *)
Definition label_score_map (labels : list LabelAnnotation.t)
  : dict string float :=
  dict_comprehension String.eqb
    (fun label => str_lower X (LabelAnnotation.description label))
    LabelAnnotation.score labels.

Definition detect_labels (self : t) (image_path : string)
  : Py LabelResult :=
  if negb (vision_api_available self) then
    ret (LabelError
           {| ErrorResult.error := "API Google Cloud Vision non disponible";
              ErrorResult.message :=
                Some "Vérifiez la configuration de vos credentials Google Cloud" |})
  else
    try_except
      (content <- call (ev_open_read image_path)
                    (io_open_read X image_path) ;;
       client <- match vision_client self with
                 | Some c => ret c
                 | None => raise (Exception "AttributeError"
                     "'ImageRecognitionEngine' object has no attribute 'vision_client'")
                 end ;;
       response <- call ev_label_detection (label_detection client content) ;;
       let labels := Response.label_annotations response in
       let label_results := label_score_map labels in
       let anomalies := _detect_anomalies label_results in
       let sorted_labels :=
         sorted_reverse SortedLabel.score
           (map (fun '(k, v) =>
                   {| SortedLabel.label := k; SortedLabel.score := v |})
              label_results) in
       ret (Labels
         {| LabelAnalysis.success := true;
            LabelAnalysis.labels := label_results;
            LabelAnalysis.anomalies_detected :=
              0 <? Z.of_nat (List.length anomalies);
            LabelAnalysis.anomalies := anomalies;
            LabelAnalysis.sorted_labels := sorted_labels;
            LabelAnalysis.car_related := _is_car_related label_results;
            LabelAnalysis.warning :=
              if truthy_str (Response.error_message response)
              then Some ("API Error: "
                           ++ Response.error_message response)%string
              else None |}))
      (fun e => ret (LabelError (error_result
         ("Erreur lors de l'analyse avec Google Cloud Vision: "
            ++ exc_str e)%string))).

(** [os.getenv(name, default)] *)
Definition getenv (name default : string) : string :=
  match os_getenv X name with Some v => v | None => default end.

(** The constructor.  Its [print] calls are left out. *)
Definition __init__ : Py t :=
  let model_path := getenv "MODEL_PATH" "models/detection_model.pb" in
  let labels_path := getenv "LABELS_PATH" "models/labels.pbtxt" in
  confidence_threshold <-
    match os_getenv X "CONFIDENCE_THRESHOLD" with
    | None => ret 0.5%float
    | Some s =>
        match float_of_str X s with
        | Some f => ret f
        | None => raise (Exception "ValueError"
                           ("could not convert string to float: " ++ s)%string)
        end
    end ;;
  '(net, labels) <-
    (if os_path_exists X model_path && os_path_exists X labels_path then
       try_except
         (n <- call (ev_readNet model_path)
                 (cv2_dnn_readNetFromTensorflow X model_path) ;;
          (* an exception inside _load_labels is caught here as well:
             the network and the entries stored so far stay *)
          call (ev_load_labels labels_path)
            (inr (Some n, load_label_file X labels_path)))
         (fun _ => ret (None, []))
     else ret (None, [])) ;;
  '(vision_client, vision_api_available) <-
    try_except
      (c <- call ev_client_init (vision_ImageAnnotatorClient X) ;;
       ret (Some c, true))
      (fun _ => ret (None, false)) ;;
  ret {| model_path := model_path; labels_path := labels_path;
         confidence_threshold := confidence_threshold;
         net := net; labels := labels; initialized := true;
         vision_client := vision_client;
         vision_api_available := vision_api_available |}.
End Methods.
End ImageRecognitionEngine.

(* ================================================================== *)
(** ** The standalone function [detect_labels] *)

Definition detect_labels_anomaly_keywords : list string := [
  "damage"; "broken"; "crack"; "dent"; "scratch"; "rust"; "leak";
  "worn"; "bent"; "burnt"; "accident"; "problem"; "issue"; "fault";
  "dommage"; "cassé"; "fissure"; "bosse"; "rayure"; "rouille"; "fuite";
  "usé"; "plié"; "brûlé"; "accident"; "problème"; "panne"; "défaut"
].

Definition detect_labels_car_keywords : list string := [
  "car"; "vehicle"; "motor"; "engine"; "wheel"; "tire"; "brake";
  "transmission"; "exhaust"; "battery"; "headlight"; "bumper";
  "voiture"; "véhicule"; "moteur"; "roue"; "pneu"; "frein";
  "transmission"; "échappement"; "batterie"; "phare"; "pare-choc"
].

Definition detect_labels (X : Externals) (image_path : string)
  : Py LabelDetectionResult :=
  try_except
    (client <- call ev_client_init (vision_ImageAnnotatorClient X) ;;
     content <- call (ev_open_read image_path) (io_open_read X image_path) ;;
     response <- call ev_label_detection (label_detection client content) ;;
     let labels := Response.label_annotations response in
     let results := ImageRecognitionEngine.label_score_map X labels in
     let anomalies :=
       ImageRecognitionEngine.matching_anomalies X
         detect_labels_anomaly_keywords results in
     let car_related :=
       ImageRecognitionEngine.any_keyword_matches X
         detect_labels_car_keywords results in
     ret (LabelsDetected
       {| LabelDetection.success := true;
          LabelDetection.labels := results;
          LabelDetection.anomalies_detected :=
            0 <? Z.of_nat (List.length anomalies);
          LabelDetection.anomalies := anomalies;
          LabelDetection.car_related := car_related |}))
    (fun e => ret (LabelDetectionError (ImageRecognitionEngine.error_result
       ("Erreur lors de l'analyse avec Google Cloud Vision: "
          ++ exc_str e)%string))).

(* ================================================================== *)
(** ** Vocabulary of the properties *)

(** The results [analyze_image] gives for a missing or unreadable input. *)
Definition input_error (r : AnalysisResult) : Prop :=
  r = AnalysisError
        (ImageRecognitionEngine.error_result "Aucune image fournie")
  \/ exists path,
       r = AnalysisError (ImageRecognitionEngine.error_result
             ("Impossible de charger l'image: " ++ path)%string).

(** Neither a path nor an image is supplied, or the supplied path cannot
    be decoded into an image. *)
Definition no_usable_input (X : Externals) (image_path : option string)
  (image_array : option ndarray) : Prop :=
  (supplied_path image_path = None /\ image_array = None)
  \/ exists path,
       supplied_path image_path = Some path /\ cv2_imread X path = inr None.

(** Order of two elements by their keys, and keys that are numbers. *)
Definition key_le {A} (key : A -> float) (a b : A) : Prop :=
  (key a <=? key b)%float = true.

Definition key_is_number {A} (key : A -> float) (a : A) : Prop :=
  is_nan (key a) = false.

(** How many entries of an anomaly list pair [keyword] with [label]. *)
Definition count_entries (keyword label : string) (l : list Anomaly.t) : nat :=
  List.length
    (filter (fun a => String.eqb (Anomaly.type a) keyword
                      && String.eqb (Anomaly.label a) label) l).

(** How many labels of the map a keyword occurs in, up to case. *)
Definition count_matches (X : Externals) (labels : dict string float)
  (keyword : string) : nat :=
  List.length
    (filter (fun kv => contains keyword (str_lower X (fst kv))) labels).

(** The result carries data: it is one of the two analyses, marked as a
    success. *)
Definition carries_data (r : AnalysisResult) : Prop :=
  (exists b, r = Basic b /\ BasicAnalysis.success b = true)
  \/ (exists m, r = ModelBased m /\ ModelAnalysis.success m = true).

(* ================================================================== *)
(** ** Two concrete machines *)

(** A machine with no model files, no credentials, no readable file and
    no working OpenCV primitive. *)
Definition offline : Externals := {|
  str_lower := ascii_lower;
  os_getenv := fun _ => None;
  float_of_str := fun _ => None;
  os_path_exists := fun _ => false;
  cv2_dnn_readNetFromTensorflow := fun _ =>
    inl (Exception "cv2.error" "Failed to open NetParameter file");
  load_label_file := fun _ => [];
  vision_ImageAnnotatorClient :=
    inl (Exception "DefaultCredentialsError"
           "Could not automatically determine credentials");
  cv2_imread := fun _ => inr None;
  cv2_cvtColor := fun _ _ => inl (Exception "cv2.error" "cvtColor");
  cv2_Canny := fun _ _ _ => inl (Exception "cv2.error" "Canny");
  cv2_findContours := fun _ => inl (Exception "cv2.error" "findContours");
  cv2_contourArea := fun _ => inl (Exception "cv2.error" "contourArea");
  cv2_inRange := fun _ _ _ => inl (Exception "cv2.error" "inRange");
  cv2_countNonZero := fun _ => inl (Exception "cv2.error" "countNonZero");
  cv2_dnn_blobFromImage := fun _ => inl (Exception "cv2.error" "blobFromImage");
  io_open_read := fun _ =>
    inl (Exception "FileNotFoundError" "No such file or directory");
  int_cast_invalid := fun _ => - 2 ^ 63
|}.

Definition offline_engine : ImageRecognitionEngine.t := {|
  ImageRecognitionEngine.model_path := "models/detection_model.pb";
  ImageRecognitionEngine.labels_path := "models/labels.pbtxt";
  ImageRecognitionEngine.confidence_threshold := 0.5%float;
  ImageRecognitionEngine.net := None;
  ImageRecognitionEngine.labels := [];
  ImageRecognitionEngine.initialized := true;
  ImageRecognitionEngine.vision_client := None;
  ImageRecognitionEngine.vision_api_available := false
|}.

Definition sample_row (class_id confidence : float) : Row.t := {|
  Row.image_id := 0%float; Row.class_id := class_id;
  Row.confidence := confidence;
  Row.x0 := 0.25%float; Row.y0 := 0.25%float;
  Row.x1 := 0.75%float; Row.y1 := 0.5%float
|}.

(** A detector that answers three rows whatever the input. *)
Definition sample_net : Net := {|
  forward := fun _ =>
    inr [sample_row 1%float 0.875%float; sample_row 2%float 0.5%float;
         sample_row 7%float 0.75%float]
|}.

(** A service that answers three labels, two of them equal up to case. *)
Definition sample_client : Client := {|
  label_detection := fun _ =>
    inr {| Response.label_annotations := [
             {| LabelAnnotation.description := "Rusty Car";
                LabelAnnotation.score := 0.75%float |};
             {| LabelAnnotation.description := "Flower";
                LabelAnnotation.score := 0.5%float |};
             {| LabelAnnotation.description := "rusty car";
                LabelAnnotation.score := 0.25%float |} ];
           Response.error_message := EmptyString |}
|}.

(** A 4 x 4 colour image. *)
Definition sample_image : ndarray := {| shape := [4; 4; 3]; data := [] |}.

(** A grey-level image: its shape has two components only. *)
Definition grey_image : ndarray := {| shape := [4; 4]; data := [] |}.

(** An image without rows: its area is zero. *)
Definition empty_image : ndarray := {| shape := [0; 4; 3]; data := [] |}.

(** A machine on which everything is available. *)
Definition workstation : Externals := {|
  str_lower := ascii_lower;
  os_getenv := fun _ => None;
  float_of_str := fun _ => None;
  os_path_exists := fun _ => true;
  cv2_dnn_readNetFromTensorflow := fun _ => inr sample_net;
  load_label_file := fun _ => [(1, "Disque de Frein"); (2, "Pneu")];
  vision_ImageAnnotatorClient := inr sample_client;
  cv2_imread := fun path =>
    if String.eqb path "car.jpg" then inr (Some sample_image) else inr None;
  cv2_cvtColor := fun image _ => inr image;
  cv2_Canny := fun image _ _ => inr image;
  cv2_findContours := fun image => inr [image];
  cv2_contourArea := fun _ => inr 600%float;
  cv2_inRange := fun image _ _ => inr image;
  cv2_countNonZero := fun _ => inr 4;
  cv2_dnn_blobFromImage := fun image => inr image;
  io_open_read := fun _ => inr "JFIF";
  int_cast_invalid := fun _ => - 2 ^ 63
|}.

Definition workstation_engine : ImageRecognitionEngine.t := {|
  ImageRecognitionEngine.model_path := "models/detection_model.pb";
  ImageRecognitionEngine.labels_path := "models/labels.pbtxt";
  ImageRecognitionEngine.confidence_threshold := 0.5%float;
  ImageRecognitionEngine.net := Some sample_net;
  ImageRecognitionEngine.labels := [(1, "Disque de Frein"); (2, "Pneu")];
  ImageRecognitionEngine.initialized := true;
  ImageRecognitionEngine.vision_client := Some sample_client;
  ImageRecognitionEngine.vision_api_available := true
|}.

(** The same machine without its model: basic analysis only. *)
Definition basic_engine : ImageRecognitionEngine.t := {|
  ImageRecognitionEngine.model_path := "models/detection_model.pb";
  ImageRecognitionEngine.labels_path := "models/labels.pbtxt";
  ImageRecognitionEngine.confidence_threshold := 0.5%float;
  ImageRecognitionEngine.net := None;
  ImageRecognitionEngine.labels := [];
  ImageRecognitionEngine.initialized := true;
  ImageRecognitionEngine.vision_client := Some sample_client;
  ImageRecognitionEngine.vision_api_available := true
|}.


(** A service that finds no label, and an engine that holds it. *)
Definition silent_client : Client := {|
  label_detection := fun _ =>
    inr {| Response.label_annotations := [];
           Response.error_message := EmptyString |}
|}.

Definition quiet_engine : ImageRecognitionEngine.t := {|
  ImageRecognitionEngine.model_path := "models/detection_model.pb";
  ImageRecognitionEngine.labels_path := "models/labels.pbtxt";
  ImageRecognitionEngine.confidence_threshold := 0.5%float;
  ImageRecognitionEngine.net := None;
  ImageRecognitionEngine.labels := [];
  ImageRecognitionEngine.initialized := true;
  ImageRecognitionEngine.vision_client := Some silent_client;
  ImageRecognitionEngine.vision_api_available := true
|}.

(** A label map with two labels, each matched by two keywords. *)
Definition sample_labels : dict string float :=
  [("rusty bolt", 0.4%float); ("cracked glass", 0.9%float)].

Definition detection_of_class (name : string) : Detection.t := {|
  Detection.class := name; Detection.confidence := 0.875%float;
  Detection.bounding_box :=
    {| BoundingBox.x_min := 0; BoundingBox.y_min := 0;
       BoundingBox.x_max := 1; BoundingBox.y_max := 1 |}
|}.

(* ================================================================== *)
(** ** The label table file: [_load_labels] *)

(** [s.split(sep)] for a one-character separator: the fields between the
    separators, one field at least. *)
Fixpoint split_on (sep : ascii) (s : string) : list string :=
  match s with
  | EmptyString => [EmptyString]
  | String c s' =>
      match split_on sep s' with
      | [] => [EmptyString]
      | field :: fields =>
          if Ascii.eqb c sep then EmptyString :: field :: fields
          else String c field :: fields
      end
  end.

(** [s.replace(c, "")] for a one-character [c]. *)
Fixpoint remove_char (c : ascii) (s : string) : string :=
  match s with
  | EmptyString => EmptyString
  | String a s' =>
      if Ascii.eqb a c then remove_char c s' else String a (remove_char c s')
  end.

Definition single_quote : ascii := ascii_of_nat 39.
Definition double_quote : ascii := ascii_of_nat 34.

Section LoadLabels.
Variable str_strip : string -> string.       (* str.strip *)
Variable int_of_str : string -> option Z.    (* int(s), None: ValueError *)

(** [line.split(':')[-1].strip()] *)
Definition last_field (line : string) : string :=
  str_strip (last (split_on ":" line) EmptyString).

(** One iteration of the loop, on [self.labels] and [current_id]. *)
Definition load_labels_line (state : dict Z string * option Z)
  (line : string) : exception + (dict Z string * option Z) :=
  let (labels, current_id) := state in
  let line := str_strip line in
  if contains "id:" line then
    match int_of_str (last_field line) with
    | Some id => inr (labels, Some id)
    | None =>
        inl (Exception "ValueError"
               ("invalid literal for int() with base 10: '"
                  ++ last_field line ++ "'")%string)
    end
  else if contains "name:" line then
    let current_name :=
      remove_char double_quote (remove_char single_quote (last_field line)) in
    match current_id with
    | Some id => inr (dict_set Z.eqb id current_name labels, None)
    | None => inr (labels, None)
    end
  else inr (labels, current_id).

(** The loop: the table when it ends, and the exception that ended it,
    if one did. *)
Fixpoint load_labels_lines (state : dict Z string * option Z)
  (lines : list string) : dict Z string * option exception :=
  match lines with
  | [] => (fst state, None)
  | line :: rest =>
      match load_labels_line state line with
      | inl e => (fst state, Some e)
      | inr state' => load_labels_lines state' rest
      end
  end.

(** [_load_labels], given what opening and reading the file answers and
    the table [self.labels] holds so far: the table it leaves, and the
    exception it raises, if any. *)
Definition _load_labels (file : exception + list string)
  (labels : dict Z string) : dict Z string * option exception :=
  match file with
  | inl e => (labels, Some e)
  | inr lines => load_labels_lines (labels, None) lines
  end.
End LoadLabels.

(** [str.strip] and [int] on ASCII text: blanks are the space and the
    control characters tab to carriage return; an integer is an optional
    sign and decimal digits, with blanks around them. *)
Definition ascii_blank (c : ascii) : bool :=
  let n := nat_of_ascii c in
  (n =? 32)%nat || ((9 <=? n)%nat && (n <=? 13)%nat).

Fixpoint ascii_lstrip (s : string) : string :=
  match s with
  | EmptyString => EmptyString
  | String c s' => if ascii_blank c then ascii_lstrip s' else s
  end.

Fixpoint ascii_rstrip (s : string) : string :=
  match s with
  | EmptyString => EmptyString
  | String c s' =>
      match ascii_rstrip s' with
      | EmptyString => if ascii_blank c then EmptyString
                       else String c EmptyString
      | rest => String c rest
      end
  end.

Definition ascii_strip (s : string) : string := ascii_rstrip (ascii_lstrip s).

Definition decimal_digits (s : string) : option Z :=
  match s with
  | EmptyString => None
  | _ => option_map Z.of_uint (NilEmpty.uint_of_string s)
  end.

Definition decimal_int (s : string) : option Z :=
  match ascii_strip s with
  | String "-" digits => option_map Z.opp (decimal_digits digits)
  | String "+" digits => decimal_digits digits
  | digits => decimal_digits digits
  end.

(** A label table file in the usual layout. *)
Definition sample_label_lines : list string := [
  "item {";  "  id: 1";  "  name: 'Disque de Frein'";  "}";
  "item {";  "  id: 2";  "  name: 'Pneu'";  "}"
].

(** The first item of that file, and an item whose id is not a number. *)
Definition first_item_lines : list string :=
  ["item {";  "  id: 1";  "  name: 'Disque de Frein'";  "}"].

Definition bad_id_line : string := "  id: deux".

(* ================================================================== *)
(** ** More vocabulary *)

(** [_model_based_analysis] for any numpy.  The test of its loop,
    [confidence > self.confidence_threshold], compares a float32 of the
    output tensor with a Python float, and what numpy answers depends on
    its version: numpy 1 compares the two values as binary64 numbers,
    numpy 2 rounds the threshold to float32 first.  Here the comparison
    is a parameter, [np_greater confidence threshold];
    [ImageRecognitionEngine._model_based_analysis] is the instance
    [binary64_greater], which compares the values as they are. *)
Module NumpyComparison.
Section Methods.
Variable X : Externals.
Variable np_greater : float -> float -> bool.

Definition row_detections (self : ImageRecognitionEngine.t)
  (width height : Z) (row : Row.t) : Py (list Detection.t) :=
  let confidence := Row.confidence row in
  if np_greater confidence (ImageRecognitionEngine.confidence_threshold self)
  then
    class_id <- py_int (Row.class_id row) ;;
    let class_name :=
      match dict_get Z.eqb class_id (ImageRecognitionEngine.labels self) with
      | Some name => name
      | None => ("Classe " ++ str_of_int class_id)%string
      end in
    let scaled v dim := astype_int X (v * float_of_Z dim)%float in
    ret [{| Detection.class := class_name;
            Detection.confidence := confidence;
            Detection.bounding_box :=
              {| BoundingBox.x_min := scaled (Row.x0 row) width;
                 BoundingBox.y_min := scaled (Row.y0 row) height;
                 BoundingBox.x_max := scaled (Row.x1 row) width;
                 BoundingBox.y_max := scaled (Row.y1 row) height |} |}]
  else ret [].

Definition _model_based_analysis (self : ImageRecognitionEngine.t)
  (image : ndarray) : Py ModelAnalysis.t :=
  '(height, width) <- unpack_shape image ;;
  blob <- call ev_blobFromImage (cv2_dnn_blobFromImage X image) ;;
  network <- match ImageRecognitionEngine.net self with
             | Some n => ret n
             | None => raise (Exception "AttributeError"
                 "'NoneType' object has no attribute 'setInput'")
             end ;;
  detections <- call ev_forward (forward network blob) ;;
  per_row <- for_each (row_detections self width height) detections ;;
  let results := List.concat per_row in
  let possible_diagnoses :=
    ImageRecognitionEngine._generate_diagnoses X results in
  ret {| ModelAnalysis.success := true;
         ModelAnalysis.type := "model_based_analysis";
         ModelAnalysis.dimensions :=
           {| Dimensions.width := width; Dimensions.height := height |};
         ModelAnalysis.detections := results;
         ModelAnalysis.detected_count := Z.of_nat (List.length results);
         ModelAnalysis.possible_diagnoses := possible_diagnoses |}.
End Methods.
End NumpyComparison.

(** The comparison of the two values as binary64 numbers. *)
Definition binary64_greater (a b : float) : bool := (b <? a)%float.

(** The row passes the confidence test of the engine. *)
Definition confident (np_greater : float -> float -> bool)
  (self : ImageRecognitionEngine.t) (row : Row.t) : bool :=
  np_greater (Row.confidence row)
    (ImageRecognitionEngine.confidence_threshold self).

(** The name the label table gives a class id, or the placeholder. *)
Definition class_name_of (self : ImageRecognitionEngine.t) (class_id : Z)
  : string :=
  match dict_get Z.eqb class_id (ImageRecognitionEngine.labels self) with
  | Some name => name
  | None => ("Classe " ++ str_of_int class_id)%string
  end.

(** [d] is the detection the loop of [_model_based_analysis] builds from
    [row] for an image of the given width and height. *)
Definition detection_of_row (X : Externals) (self : ImageRecognitionEngine.t)
  (width height : Z) (row : Row.t) (d : Detection.t) : Prop :=
  exists class_id,
    float_trunc (Row.class_id row) = Some class_id
    /\ Detection.class d = class_name_of self class_id
    /\ Detection.confidence d = Row.confidence row
    /\ Detection.bounding_box d =
       {| BoundingBox.x_min := astype_int X (Row.x0 row * float_of_Z width)%float;
          BoundingBox.y_min := astype_int X (Row.y0 row * float_of_Z height)%float;
          BoundingBox.x_max := astype_int X (Row.x1 row * float_of_Z width)%float;
          BoundingBox.y_max := astype_int X (Row.y1 row * float_of_Z height)%float |}.

(** The lower-cased class names [_generate_diagnoses] works on. *)
Definition detected_classes (X : Externals) (detections : list Detection.t)
  : list string :=
  map (fun d => str_lower X (Detection.class d)) detections.

Definition generic_diagnosis : string :=
  "Composants automobiles détectés, mais aucun problème spécifique identifié".
Definition corrosion_advisory : string :=
  "Présence de corrosion détectée - vérifiez l'étendue des dommages".
Definition leak_advisory : string :=
  "Fuite de liquide détectée - vérifiez le type et la source".
Definition crack_advisory : string :=
  "Fissure détectée - inspectez la gravité et l'emplacement".

(** The tests [_generate_diagnoses] makes on the class names, each with
    the message it appends when it holds, in the order of the appends. *)
Definition diagnosis_rules (classes : list string) : list (bool * string) :=
  map (fun '(component, diagnosis) =>
         (existsb (contains component) classes, diagnosis))
    ImageRecognitionEngine.component_diagnoses
  ++ [(existsb (String.eqb "rouille") classes
       || existsb (String.eqb "corrosion") classes, corrosion_advisory);
      (existsb (String.eqb "fuite") classes
       || existsb (String.eqb "liquide") classes, leak_advisory);
      (existsb (String.eqb "fissure") classes, crack_advisory)].

(** The messages of the rules that hold. *)
Definition selected (rules : list (bool * string)) : list string :=
  map snd (filter fst rules).

(** The entry of [sorted_labels] for one item of the label map. *)
Definition label_entry (kv : string * float) : SortedLabel.t :=
  {| SortedLabel.label := fst kv; SortedLabel.score := snd kv |}.

(** The pair a [sorted_labels] entry stands for. *)
Definition entry_item (l : SortedLabel.t) : string * float :=
  (SortedLabel.label l, SortedLabel.score l).

(** The error result of both [detect_labels] for an exception. *)
Definition vision_error (e : exception) : ErrorResult.t :=
  ImageRecognitionEngine.error_result
    ("Erreur lors de l'analyse avec Google Cloud Vision: " ++ exc_str e)%string.


(** The characters of a string. *)
Definition chars (s : string) : list ascii := list_ascii_of_string s.

Section LabelLines.
Variable str_strip : string -> string.
Variable int_of_str : string -> option Z.

(** The tests of the loop of [_load_labels] on a line of the file. *)
Definition is_id_line (line : string) : bool :=
  contains "id:" (str_strip line).

Definition is_name_line (line : string) : bool :=
  negb (contains "id:" (str_strip line))
  && contains "name:" (str_strip line).

(** The number an id line gives, if [int] accepts its last field. *)
Definition id_of_line (line : string) : option Z :=
  int_of_str (last_field str_strip (str_strip line)).

(** The name a name line gives. *)
Definition name_of_line (line : string) : string :=
  remove_char double_quote
    (remove_char single_quote (last_field str_strip (str_strip line))).

(** The entry pairs an id line of the file with the next name line, no
    id line and no name line standing between the two. *)
Definition paired (lines : list string) (entry : Z * string) : Prop :=
  exists before id_line between name_line after,
    lines = before ++ id_line :: between ++ name_line :: after
    /\ is_id_line id_line = true
    /\ id_of_line id_line = Some (fst entry)
    /\ Forall (fun line => is_id_line line = false
                          /\ is_name_line line = false) between
    /\ is_name_line name_line = true
    /\ snd entry = name_of_line name_line.

(** [int] accepts the last field of every id line. *)
Definition ids_are_numbers (lines : list string) : Prop :=
  Forall (fun line => is_id_line line = true -> id_of_line line <> None)
    lines.

(** What the loop knows after the lines [seen]: the entries of the table
    are those it started with or pairs of [seen], whatever follows, and a
    pending id comes from an id line of [seen] that no id or name line
    follows. *)
Definition loop_invariant (labels : dict Z string) (seen : list string)
  (state : dict Z string * option Z) : Prop :=
  Forall (fun kv => In kv labels
                    \/ forall more, paired (seen ++ more) kv)
    (fst state)
  /\ forall id, snd state = Some id ->
       exists before id_line between,
         seen = before ++ id_line :: between
         /\ is_id_line id_line = true
         /\ id_of_line id_line = Some id
         /\ Forall (fun line => is_id_line line = false
                                /\ is_name_line line = false)
              between.
End LabelLines.

(* ================================================================== *)
(** ** Proof automation *)

(** Case analysis on the integer and positive comparisons a goal about
    [SFcompare] reduces to. *)
Ltac sf_cases :=
  simpl; try congruence;
  change (PosDef.Pos.compare_cont Eq) with Pos.compare;
  repeat match goal with
         | |- context [Z.compare ?a ?b] => destruct (Z.compare_spec a b)
         | |- context [Pos.compare ?a ?b] => destruct (Pos.compare_spec a b)
         end;
  simpl; intros; subst; try congruence; try lia.

(* ================================================================== *)
(** * Facts *)

(** ** Order of floats *)

Lemma SFcompare_Lt_swap a b :
  SFcompare a b = Some Lt -> SFcompare b a = Some Gt.
Proof.
  destruct a as [[]|[]| |[] m1 e1], b as [[]|[]| |[] m2 e2]; sf_cases.
Qed.

Lemma SFleb_total a b :
  a <> S754_nan -> b <> S754_nan -> SFltb a b = false -> SFleb b a = true.
Proof.
  unfold SFltb, SFleb.
  destruct a as [[]|[]| |[] m1 e1], b as [[]|[]| |[] m2 e2]; sf_cases.
Qed.

Lemma SFleb_trans a b c :
  SFleb a b = true -> SFleb b c = true -> SFleb a c = true.
Proof.
  unfold SFleb.
  destruct a as [[]|[]| |[] m1 e1], b as [[]|[]| |[] m2 e2],
           c as [[]|[]| |[] m3 e3]; sf_cases.
Qed.

Lemma is_nan_false x : is_nan x = false <-> Prim2SF x <> S754_nan.
Proof.
  unfold is_nan. rewrite eqb_spec. unfold SFeqb.
  destruct (Prim2SF x) as [[]|[]| |[] m e]; simpl; try (split; congruence).
  all: rewrite Z.compare_refl;
    change (PosDef.Pos.compare_cont Eq) with Pos.compare;
    rewrite ?Pos.compare_refl; simpl; split; congruence.
Qed.

Lemma ltb_not_leb (a b : float) :
  (a <? b)%float = true -> (b <=? a)%float = false.
Proof.
  rewrite ltb_spec, leb_spec. unfold SFltb, SFleb.
  destruct (SFcompare (Prim2SF a) (Prim2SF b)) as [[]|] eqn:E;
    try discriminate.
  intros _. now rewrite (SFcompare_Lt_swap _ _ E).
Qed.

Lemma ltb_leb (a b : float) :
  (a <? b)%float = true -> (a <=? b)%float = true.
Proof.
  rewrite ltb_spec, leb_spec. unfold SFltb, SFleb.
  now destruct (SFcompare (Prim2SF a) (Prim2SF b)) as [[]|].
Qed.

Lemma not_ltb_leb (a b : float) :
  is_nan a = false -> is_nan b = false ->
  (a <? b)%float = false -> (b <=? a)%float = true.
Proof.
  rewrite !is_nan_false, ltb_spec, leb_spec. apply SFleb_total.
Qed.

Lemma leb_trans (a b c : float) :
  (a <=? b)%float = true -> (b <=? c)%float = true -> (a <=? c)%float = true.
Proof. rewrite !leb_spec. apply SFleb_trans. Qed.

(** ** Substrings *)

Lemma starts_with_spec p s :
  starts_with p s = true <-> exists post, s = (p ++ post)%string.
Proof.
  revert s. induction p as [|a p IH]; intros s; simpl.
  - split; [intros _; now exists s | reflexivity].
  - destruct s as [|b s]; simpl.
    + split; [discriminate | intros [post H]; discriminate].
    + rewrite andb_true_iff, Ascii.eqb_eq, IH. split.
      * intros [-> [post ->]]. now exists post.
      * intros [post H]. injection H as -> ->. split; [reflexivity | now exists post].
Qed.

(** [contains] decides the occurrence of [p] inside [s]. *)
Lemma contains_spec p s :
  contains p s = true <-> occurs_in p s.
Proof.
  unfold occurs_in. induction s as [|c s IH]; simpl.
  - rewrite orb_false_r, starts_with_spec. split.
    + intros [post H]. now exists EmptyString, post.
    + intros [[|? pre] [post H]]; [now exists post | discriminate].
  - rewrite orb_true_iff, starts_with_spec, IH. split.
    + intros [[post H] | [pre [post H]]].
      * now exists EmptyString, post.
      * exists (String c pre), post. simpl. now rewrite H.
    + intros [[|c' pre] [post H]].
      * left. now exists post.
      * right. simpl in H. injection H as _ H. now exists pre, post.
Qed.

(** ** Python computations *)

Lemma bind_inr {A B} (c : Py A) (k : A -> Py B) b :
  outcome (bind c k) = inr b ->
  exists a, outcome c = inr a /\ outcome (k a) = inr b.
Proof.
  destruct c as [t [e | a]]; simpl; [discriminate |].
  destruct (k a) as [t' r] eqn:E. simpl. intros ->. exists a. now rewrite E.
Qed.

Lemma trace_bind {A B} (c : Py A) (k : A -> Py B) :
  trace (bind c k) =
  trace c ++ match outcome c with inr a => trace (k a) | inl _ => [] end.
Proof.
  destruct c as [t [e | a]]; simpl; [now rewrite app_nil_r |].
  now destruct (k a).
Qed.

(** A [try] whose handler returns a value never raises. *)
Lemma try_except_returns {A} (body : Py A) (handler : exception -> A) :
  exists r, outcome (try_except body (fun e => ret (handler e))) = inr r.
Proof.
  destruct body as [t [e | a]]; simpl; eauto.
Qed.

Lemma try_except_inr {A} (body : Py A) (handler : exception -> A) r :
  outcome (try_except body (fun e => ret (handler e))) = inr r ->
  outcome body = inr r \/ exists e, outcome body = inl e /\ r = handler e.
Proof.
  destruct body as [t [e | a]]; simpl.
  - intros [= <-]. right. now exists e.
  - intros [= <-]. now left.
Qed.

Lemma trace_try_except {A} (body : Py A) (handler : exception -> A) :
  trace (try_except body (fun e => ret (handler e))) = trace body.
Proof.
  destruct body as [t [e | a]]; simpl; [apply app_nil_r | reflexivity].
Qed.

Lemma for_each_inr {A B} (f : A -> Py B) xs ys :
  outcome (for_each f xs) = inr ys ->
  Forall2 (fun x y => outcome (f x) = inr y) xs ys.
Proof.
  revert ys. induction xs as [|x xs IH]; simpl; intros ys H.
  - injection H as <-. constructor.
  - apply bind_inr in H as (y & Hy & H).
    apply bind_inr in H as (ys' & Hys & H).
    injection H as <-. constructor; auto.
Qed.

(** ** The model-based path keeps confident detections only *)

Section ModelPath.
Import ImageRecognitionEngine.
Variable X : Externals.

Lemma row_detections_confident self width height row ds :
  outcome (row_detections X self width height row) = inr ds ->
  Forall (fun d =>
    (confidence_threshold self <? Detection.confidence d)%float = true) ds.
Proof.
  unfold row_detections.
  destruct (confidence_threshold self <? Row.confidence row)%float eqn:E.
  - intros H. apply bind_inr in H as (z & _ & H).
    injection H as <-. repeat constructor. exact E.
  - intros [= <-]. constructor.
Qed.

Lemma rows_confident self width height rows per_row :
  outcome (for_each (row_detections X self width height) rows) = inr per_row ->
  Forall (fun d =>
    (confidence_threshold self <? Detection.confidence d)%float = true)
    (List.concat per_row).
Proof.
  intros H. apply for_each_inr in H. apply Forall_concat.
  induction H; constructor; eauto using row_detections_confident.
Qed.

Lemma model_based_confident self image r :
  outcome (_model_based_analysis X self image) = inr r ->
  Forall (fun d =>
    (confidence_threshold self <? Detection.confidence d)%float = true)
    (ModelAnalysis.detections r).
Proof.
  unfold _model_based_analysis. intros H.
  apply bind_inr in H as ([height width] & _ & H).
  apply bind_inr in H as (blob & _ & H).
  apply bind_inr in H as (network & _ & H).
  apply bind_inr in H as (rows & _ & H).
  apply bind_inr in H as (per_row & Hrows & H).
  injection H as <-. simpl. eauto using rows_confident.
Qed.

Lemma dispatch_model_based self image r :
  outcome (dispatch X self image) = inr (ModelBased r) ->
  outcome (_model_based_analysis X self image) = inr r.
Proof.
  unfold dispatch. destruct (net self).
  - intros H. apply bind_inr in H as (r' & Hr & H). now injection H as <-.
  - intros H. apply bind_inr in H as (r' & _ & H). discriminate.
Qed.

(** What [analyze_image] returns on an initialised engine: one of its two
    input errors, the outcome of [dispatch] on the image it loaded or was
    given, or the catch-all error of its [except] clause. *)
Lemma analyze_image_inr self image_path image_array r :
  initialized self = true ->
  outcome (analyze_image X self image_path image_array) = inr r ->
  r = AnalysisError (error_result "Aucune image fournie")
  \/ (exists path, r = AnalysisError (error_result
        ("Impossible de charger l'image: " ++ path)%string))
  \/ (exists image, outcome (dispatch X self image) = inr r)
  \/ (exists e, r = AnalysisError (error_result
        ("Erreur lors de l'analyse de l'image: " ++ exc_str e)%string)).
Proof.
  unfold analyze_image. intros -> H. cbn [negb] in H.
  apply try_except_inr in H as [H | (e & _ & ->)]; [| eauto 6].
  destruct (supplied_path image_path) as [path|].
  - apply bind_inr in H as ([image|] & _ & H).
    + right; right; left. now exists image.
    + injection H as <-. right; left. now exists path.
  - destruct image_array as [image|].
    + right; right; left. now exists image.
    + injection H as <-. now left.
Qed.
End ModelPath.

(** C1.  For every confidence threshold, every externals record (hence
    every inference output of the loaded network) and every input, a
    model-based result returned by [analyze_image] lists only detections
    whose confidence is strictly greater than the threshold: none has a
    confidence less than or equal to it. *)
Theorem analyze_image_detections_above_threshold :
  forall (X : Externals) (self : ImageRecognitionEngine.t)
         (image_path : option string) (image_array : option ndarray)
         (r : ModelAnalysis.t),
    outcome (ImageRecognitionEngine.analyze_image X self image_path image_array)
      = inr (ModelBased r) ->
    Forall (fun d =>
      (ImageRecognitionEngine.confidence_threshold self
         <? Detection.confidence d)%float = true
      /\ (Detection.confidence d
            <=? ImageRecognitionEngine.confidence_threshold self)%float = false)
      (ModelAnalysis.detections r).
Proof.
  intros X self image_path image_array r H.
  assert (Hc : Forall (fun d =>
            (ImageRecognitionEngine.confidence_threshold self
               <? Detection.confidence d)%float = true)
            (ModelAnalysis.detections r)).
  { destruct (ImageRecognitionEngine.initialized self) eqn:Hi.
    - apply (analyze_image_inr X) in H as [H | [[p H] | [[image H] | [e H]]]];
        try discriminate; trivial.
      eauto using model_based_confident, dispatch_model_based.
    - unfold ImageRecognitionEngine.analyze_image in H. rewrite Hi in H.
      discriminate. }
  eapply Forall_impl; [| exact Hc].
  intros d Hd. split; [exact Hd | now apply ltb_not_leb].
Qed.

(** ** Car-relatedness *)

(** C2.  [_is_car_related] answers true exactly when some keyword of the
    fixed car-keyword list occurs as a substring of the lower-cased form of
    some label key.  On text that lower-casing leaves unchanged it answers
    true for the map with the single key "car door" and false for the map
    with the single key "flower". *)
Theorem is_car_related_iff_keyword_in_label :
  forall X : Externals,
    (forall labels : dict string float,
        ImageRecognitionEngine._is_car_related X labels = true <->
        exists keyword label,
          In keyword ImageRecognitionEngine.car_keywords
          /\ In label (keys labels)
          /\ occurs_in keyword (str_lower X label))
    /\ (str_lower X "car door" = "car door" ->
        ImageRecognitionEngine._is_car_related X [("car door", 0.9%float)]
        = true)
    /\ (str_lower X "flower" = "flower" ->
        ImageRecognitionEngine._is_car_related X [("flower", 0.8%float)]
        = false).
Proof.
  intros X. split; [| split].
  - intros labels.
    unfold ImageRecognitionEngine._is_car_related,
      ImageRecognitionEngine.any_keyword_matches.
    rewrite existsb_exists. split.
    + intros (keyword & Hk & H). apply existsb_exists in H as (label & Hl & H).
      exists keyword, label. now rewrite <- contains_spec in *.
    + intros (keyword & label & Hk & Hl & H). exists keyword. split; [exact Hk |].
      apply existsb_exists. exists label. now rewrite contains_spec.
  - intros H.
    unfold ImageRecognitionEngine._is_car_related,
      ImageRecognitionEngine.any_keyword_matches, keys.
    cbn [map fst]. apply existsb_exists. exists "car". split.
    + now left.
    + cbn [existsb]. rewrite H. reflexivity.
  - intros H.
    unfold ImageRecognitionEngine._is_car_related,
      ImageRecognitionEngine.any_keyword_matches, keys,
      ImageRecognitionEngine.car_keywords.
    cbn [map fst existsb]. rewrite H. reflexivity.
Qed.

(** ** Diagnoses *)

(** C4, as the code has it.  On an empty detection list
    [_generate_diagnoses] returns the "nothing recognized" message alone;
    on a list with a detection whose lower-cased class contains "frein",
    the key of the component table, its output includes the brake-pad and
    disc inspection advisory. *)
Theorem generate_diagnoses_empty_and_frein :
  forall X : Externals,
    ImageRecognitionEngine._generate_diagnoses X []
    = [ImageRecognitionEngine.nothing_recognized]
    /\ forall (detections : list Detection.t) (d : Detection.t),
         In d detections ->
         occurs_in "frein" (str_lower X (Detection.class d)) ->
         In ImageRecognitionEngine.brake_advisory
           (ImageRecognitionEngine._generate_diagnoses X detections).
Proof.
  intros X. split; [reflexivity |].
  intros detections d Hd Hc.
  unfold ImageRecognitionEngine._generate_diagnoses.
  set (classes := map (fun d => str_lower X (Detection.class d)) detections).
  assert (Hex : existsb (contains "frein") classes = true).
  { apply existsb_exists. exists (str_lower X (Detection.class d)).
    split; [| now apply contains_spec]. unfold classes.
    exact (in_map (fun d => str_lower X (Detection.class d)) _ _ Hd). }
  destruct classes as [|c classes'] eqn:Ec; [discriminate |].
  unfold ImageRecognitionEngine.component_diagnoses.
  cbn [flat_map]. rewrite Hex. cbn [app]. now left.
Qed.

(** A detection of class "brake" does not bring the advisory: no key of
    the component table occurs in "brake", so the generic message is
    returned alone. *)
Lemma generate_diagnoses_brake_no_advisory :
  ImageRecognitionEngine._generate_diagnoses offline
    [detection_of_class "brake"]
  = ["Composants automobiles détectés, mais aucun problème spécifique identifié"]
  /\ ~ In ImageRecognitionEngine.brake_advisory
         (ImageRecognitionEngine._generate_diagnoses offline
            [detection_of_class "brake"]).
Proof.
  split; [reflexivity |].
  intros [H | []]. discriminate.
Qed.

(** ** Which calls an operation makes *)

Section Traces.
Variable P : event -> Prop.

Lemma Forall_trace_bind {A B} (c : Py A) (k : A -> Py B) :
  Forall P (trace c) -> (forall a, Forall P (trace (k a))) ->
  Forall P (trace (bind c k)).
Proof.
  intros Hc Hk. rewrite trace_bind. apply Forall_app. split; [exact Hc |].
  destruct (outcome c); [constructor | apply Hk].
Qed.

Lemma Forall_trace_for_each {A B} (f : A -> Py B) xs :
  (forall x, Forall P (trace (f x))) -> Forall P (trace (for_each f xs)).
Proof.
  intros Hf. induction xs as [|x xs IH]; simpl; [constructor |].
  apply Forall_trace_bind; [apply Hf | intros y].
  apply Forall_trace_bind; [exact IH | constructor].
Qed.

Lemma Forall_trace_call {A} ev (answer : exception + A) :
  P ev -> Forall P (trace (call ev answer)).
Proof. intros H. repeat constructor. exact H. Qed.
End Traces.

Lemma trace_unpack_shape image : trace (unpack_shape image) = [].
Proof.
  unfold unpack_shape.
  destruct (shape image) as [|? [|? [|? [|? ?]]]]; reflexivity.
Qed.

Lemma trace_true_div n d : trace (true_div n d) = [].
Proof. unfold true_div. now destruct (d =? 0). Qed.

Lemma trace_max_by_key {A} (key : A -> float) xs : trace (max_by_key key xs) = [].
Proof. now destruct xs. Qed.

Lemma basic_analysis_trace X image :
  Forall (fun ev => is_model_inference ev = false)
    (trace (ImageRecognitionEngine._basic_image_analysis X image)).
Proof.
  unfold ImageRecognitionEngine._basic_image_analysis.
  apply Forall_trace_bind; [rewrite trace_unpack_shape; constructor |].
  intros [height width].
  apply Forall_trace_bind; [now apply Forall_trace_call | intros gray].
  apply Forall_trace_bind; [now apply Forall_trace_call | intros edges].
  apply Forall_trace_bind; [now apply Forall_trace_call | intros contours].
  apply Forall_trace_bind.
  { apply Forall_trace_for_each. intros c. now apply Forall_trace_call. }
  intros areas.
  apply Forall_trace_bind; [now apply Forall_trace_call | intros hsv].
  apply Forall_trace_bind.
  { apply Forall_trace_for_each. intros [name [lo up]].
    apply Forall_trace_bind; [now apply Forall_trace_call | intros mask].
    apply Forall_trace_bind; [now apply Forall_trace_call | intros count].
    apply Forall_trace_bind; [rewrite trace_true_div; constructor | intros ratio].
    constructor. }
  intros percentages.
  apply Forall_trace_bind; [rewrite trace_max_by_key; constructor | intros best].
  constructor.
Qed.

Lemma basic_analysis_tagged X image r :
  outcome (ImageRecognitionEngine._basic_image_analysis X image) = inr r ->
  BasicAnalysis.type r = "basic_analysis" /\ BasicAnalysis.success r = true.
Proof.
  unfold ImageRecognitionEngine._basic_image_analysis. intros H.
  apply bind_inr in H as ([height width] & _ & H).
  apply bind_inr in H as (gray & _ & H).
  apply bind_inr in H as (edges & _ & H).
  apply bind_inr in H as (contours & _ & H).
  apply bind_inr in H as (areas & _ & H).
  apply bind_inr in H as (hsv & _ & H).
  apply bind_inr in H as (percentages & _ & H).
  apply bind_inr in H as (best & _ & H).
  injection H as <-. split; reflexivity.
Qed.

(** With no network, [dispatch] runs the basic analysis and nothing else. *)
Lemma dispatch_without_net X self image :
  ImageRecognitionEngine.net self = None ->
  ImageRecognitionEngine.dispatch X self image =
  bind (ImageRecognitionEngine._basic_image_analysis X image)
    (fun r => ret (Basic r)).
Proof. unfold ImageRecognitionEngine.dispatch. now intros ->. Qed.

(** [dispatch] never returns an error result: it returns an analysis or
    raises. *)
Lemma dispatch_inr X self image r :
  outcome (ImageRecognitionEngine.dispatch X self image) = inr r ->
  (exists b, r = Basic b /\
     outcome (ImageRecognitionEngine._basic_image_analysis X image) = inr b)
  \/ (exists m, r = ModelBased m /\
        outcome (ImageRecognitionEngine._model_based_analysis X self image)
        = inr m).
Proof.
  unfold ImageRecognitionEngine.dispatch.
  destruct (ImageRecognitionEngine.net self); intros H;
    apply bind_inr in H as (r' & Hr & H); injection H as <-; eauto.
Qed.

(** The constructor always marks the engine initialised, loads no network
    when a model file is missing, and sets the availability flag by
    whether the client could be built. *)
Lemma init_inr X self :
  outcome (ImageRecognitionEngine.__init__ X) = inr self ->
  ImageRecognitionEngine.initialized self = true
  /\ (os_path_exists X (ImageRecognitionEngine.model_path self)
      && os_path_exists X (ImageRecognitionEngine.labels_path self) = false ->
      ImageRecognitionEngine.net self = None)
  /\ (ImageRecognitionEngine.vision_api_available self = false <->
      exists e, vision_ImageAnnotatorClient X = inl e).
Proof.
  unfold ImageRecognitionEngine.__init__. intros H.
  apply bind_inr in H as (threshold & _ & H).
  apply bind_inr in H as ([network table] & Hnet & H).
  apply bind_inr in H as ([client available] & Hclient & H).
  injection H as <-. cbn. split; [reflexivity | split].
  - intros Hex. rewrite Hex in Hnet. now injection Hnet as <- _.
  - unfold call, try_except in Hclient.
    destruct (vision_ImageAnnotatorClient X) as [e | c]; cbn in Hclient;
      injection Hclient as _ <-.
    + split; [eauto | reflexivity].
    + split; [discriminate | intros [e He]; discriminate].
Qed.

Lemma model_based_success X self image m :
  outcome (ImageRecognitionEngine._model_based_analysis X self image) = inr m ->
  ModelAnalysis.type m = "model_based_analysis"
  /\ ModelAnalysis.success m = true.
Proof.
  unfold ImageRecognitionEngine._model_based_analysis. intros H.
  apply bind_inr in H as ([height width] & _ & H).
  apply bind_inr in H as (blob & _ & H).
  apply bind_inr in H as (network & _ & H).
  apply bind_inr in H as (rows & _ & H).
  apply bind_inr in H as (per_row & _ & H).
  injection H as <-. split; reflexivity.
Qed.

Lemma dispatch_carries_data X self image r :
  outcome (ImageRecognitionEngine.dispatch X self image) = inr r ->
  carries_data r.
Proof.
  intros H. apply dispatch_inr in H as [(b & -> & H) | (m & -> & H)].
  - left. exists b. split; [reflexivity |]. now apply basic_analysis_tagged in H.
  - right. exists m. split; [reflexivity |]. now apply model_based_success in H.
Qed.

Lemma carries_data_not_input_error r : carries_data r -> ~ input_error r.
Proof.
  intros [(b & -> & _) | (m & -> & _)] [H | [path H]]; discriminate.
Qed.

Lemma catch_all_not_input_error msg :
  ~ input_error (AnalysisError (ImageRecognitionEngine.error_result
      ("Erreur lors de l'analyse de l'image: " ++ msg)%string)).
Proof. intros [H | [path H]]; cbn in H; discriminate. Qed.

(** A [try] around [dispatch] returns an analysis or the catch-all error. *)
Lemma guarded_dispatch_not_input_error X self image r :
  outcome (try_except (ImageRecognitionEngine.dispatch X self image)
     (fun e => ret (AnalysisError (ImageRecognitionEngine.error_result
        ("Erreur lors de l'analyse de l'image: " ++ exc_str e)%string))))
  = inr r ->
  ~ input_error r.
Proof.
  intros H.
  apply (try_except_inr _ (fun e => AnalysisError
           (ImageRecognitionEngine.error_result
              ("Erreur lors de l'analyse de l'image: " ++ exc_str e)%string)))
    in H as [H | (e & _ & ->)].
  - eauto using carries_data_not_input_error, dispatch_carries_data.
  - apply catch_all_not_input_error.
Qed.

(** C7.  On an initialised engine [analyze_image] returns one of its two
    input-error results exactly when no usable input is supplied: neither
    a non-empty path nor an image, or a path that [cv2.imread] cannot
    decode.  In those cases no step of either analysis is run. *)
Theorem analyze_image_input_error_iff :
  forall (X : Externals) (self : ImageRecognitionEngine.t)
         (image_path : option string) (image_array : option ndarray),
    ImageRecognitionEngine.initialized self = true ->
    exists r,
      outcome (ImageRecognitionEngine.analyze_image X self image_path
                 image_array) = inr r
      /\ (input_error r <-> no_usable_input X image_path image_array)
      /\ (no_usable_input X image_path image_array ->
          Forall (fun ev => is_analysis ev = false)
            (trace (ImageRecognitionEngine.analyze_image X self image_path
                      image_array))).
Proof.
  intros X self image_path image_array Hinit.
  unfold ImageRecognitionEngine.analyze_image, no_usable_input.
  rewrite Hinit. cbn [negb].
  assert (Hgiven : forall image,
    exists r,
      outcome (try_except (ImageRecognitionEngine.dispatch X self image)
        (fun e => ret (AnalysisError (ImageRecognitionEngine.error_result
           ("Erreur lors de l'analyse de l'image: " ++ exc_str e)%string))))
      = inr r /\ ~ input_error r).
  { intros image.
    destruct (try_except_returns (ImageRecognitionEngine.dispatch X self image)
      (fun e => AnalysisError (ImageRecognitionEngine.error_result
         ("Erreur lors de l'analyse de l'image: " ++ exc_str e)%string)))
      as [r Hr].
    exists r. split; [exact Hr |].
    eauto using guarded_dispatch_not_input_error. }
  destruct (supplied_path image_path) as [path|].
  - (* a path is supplied *)
    destruct (cv2_imread X path) as [e | [image|]] eqn:Hread.
    + (* imread raises *)
      eexists. split; [unfold bind, call, try_except; cbn; reflexivity |].
      split; [split |].
      * intros H. now apply catch_all_not_input_error in H.
      * intros [[H _] | (p & [= <-] & H)]; congruence.
      * intros [[H _] | (p & [= <-] & H)]; congruence.
    + (* imread decodes an image *)
      destruct (Hgiven image) as (r & Hr & Hne).
      exists r. split; [| split; [split |]].
      * unfold bind, call, try_except in *.
        destruct (ImageRecognitionEngine.dispatch X self image) as [t [e | a]];
          cbn in *; exact Hr.
      * intros H. contradiction.
      * intros [[H _] | (p & [= <-] & H)]; congruence.
      * intros [[H _] | (p & [= <-] & H)]; congruence.
    + (* imread answers None *)
      eexists. split; [unfold bind, call, try_except; cbn; reflexivity |].
      split; [split |].
      * intros _. right. exists path. split; [reflexivity | exact Hread].
      * intros _. right. now exists path.
      * intros _. cbn. repeat constructor.
  - (* no path: the image given, if any, is used *)
    destruct image_array as [image|].
    + destruct (Hgiven image) as (r & Hr & Hne).
      exists r. split; [exact Hr | split; [split |]].
      * intros H. contradiction.
      * intros [[_ H] | (p & H & _)]; discriminate.
      * intros [[_ H] | (p & H & _)]; discriminate.
    + eexists. split; [reflexivity | split; [split |]].
      * intros _. now left.
      * intros _. now left.
      * intros _. constructor.
Qed.

(** A grey-level image given in memory is an input, not an input error:
    the failure to unpack its two-component shape comes back as the
    catch-all error of the [except] clause. *)
Example analyze_image_grey_image :
  ImageRecognitionEngine.analyze_image workstation basic_engine None
    (Some grey_image)
  = ([], inr (AnalysisError (ImageRecognitionEngine.error_result
       "Erreur lors de l'analyse de l'image: not enough values to unpack (expected 3, got 2)"))).
Proof. reflexivity. Qed.

(** ** Unavailable backends *)

(** C5.  An engine whose constructor could not build the cloud vision
    client has its availability flag false; and whenever the flag is
    false, [detect_labels] returns an error result without making any
    call at all, so without a file read or a network call. *)
Theorem detect_labels_unavailable_no_call :
  forall (X : Externals) (self : ImageRecognitionEngine.t),
    (outcome (ImageRecognitionEngine.__init__ X) = inr self ->
     (exists e, vision_ImageAnnotatorClient X = inl e) ->
     ImageRecognitionEngine.vision_api_available self = false)
    /\ (ImageRecognitionEngine.vision_api_available self = false ->
        forall image_path : string,
          (exists e,
              outcome (ImageRecognitionEngine.detect_labels X self image_path)
              = inr (LabelError e))
          /\ trace (ImageRecognitionEngine.detect_labels X self image_path) = []
          /\ Forall (fun ev => is_file_read ev = false
                               /\ is_network_call ev = false)
               (trace (ImageRecognitionEngine.detect_labels X self image_path))).
Proof.
  intros X self. split.
  - intros Hinit Hfail. now apply (init_inr X self Hinit).
  - intros Hflag image_path.
    unfold ImageRecognitionEngine.detect_labels. rewrite Hflag. cbn.
    split; [eauto | split; [reflexivity | constructor]].
Qed.

(** C6.  An engine built where a model file is missing has no network;
    and whenever the network is absent, no call of [analyze_image] runs a
    model-inference step, and every result that is not an error result is
    a basic analysis tagged "basic_analysis". *)
Theorem analyze_image_without_model_is_basic :
  forall (X : Externals) (self : ImageRecognitionEngine.t),
    (outcome (ImageRecognitionEngine.__init__ X) = inr self ->
     os_path_exists X (ImageRecognitionEngine.model_path self)
     && os_path_exists X (ImageRecognitionEngine.labels_path self) = false ->
     ImageRecognitionEngine.net self = None)
    /\ (ImageRecognitionEngine.net self = None ->
        forall (image_path : option string) (image_array : option ndarray),
          Forall (fun ev => is_model_inference ev = false)
            (trace (ImageRecognitionEngine.analyze_image X self image_path
                      image_array))
          /\ forall r,
               outcome (ImageRecognitionEngine.analyze_image X self
                          image_path image_array) = inr r ->
               (exists e, r = AnalysisError e)
               \/ (exists b, r = Basic b
                     /\ BasicAnalysis.type b = "basic_analysis"
                     /\ BasicAnalysis.success b = true)).
Proof.
  intros X self. split.
  - intros Hinit. apply (init_inr X self Hinit).
  - intros Hnet image_path image_array. split.
    + unfold ImageRecognitionEngine.analyze_image.
      destruct (ImageRecognitionEngine.initialized self); cbn [negb];
        [| constructor].
      rewrite (trace_try_except _ (fun e => AnalysisError
        (ImageRecognitionEngine.error_result
           ("Erreur lors de l'analyse de l'image: " ++ exc_str e)%string))).
      assert (Hd : forall image,
        Forall (fun ev => is_model_inference ev = false)
          (trace (ImageRecognitionEngine.dispatch X self image))).
      { intros image. rewrite dispatch_without_net by exact Hnet.
        apply Forall_trace_bind; [apply basic_analysis_trace | constructor]. }
      destruct (supplied_path image_path) as [path|].
      * apply Forall_trace_bind; [now apply Forall_trace_call |].
        intros [image|]; [apply Hd | constructor].
      * destruct image_array; [apply Hd | constructor].
    + intros r Hr.
      destruct (ImageRecognitionEngine.initialized self) eqn:Hi.
      * apply (analyze_image_inr X) in Hr
          as [-> | [[p ->] | [[image H] | [e ->]]]]; eauto.
        rewrite dispatch_without_net in H by exact Hnet.
        apply bind_inr in H as (b & Hb & H). injection H as <-.
        right. exists b. split; [reflexivity |].
        now apply basic_analysis_tagged in Hb.
      * unfold ImageRecognitionEngine.analyze_image in Hr. rewrite Hi in Hr.
        injection Hr as <-. eauto.
Qed.

(** ** No exception leaves a public operation *)

Lemma analyze_image_returns X self image_path image_array :
  exists r,
    outcome (ImageRecognitionEngine.analyze_image X self image_path
               image_array) = inr r.
Proof.
  unfold ImageRecognitionEngine.analyze_image.
  destruct (negb (ImageRecognitionEngine.initialized self)).
  - eexists. reflexivity.
  - match goal with
    | |- context [try_except ?b (fun e => ret (@?h e))] =>
        apply (try_except_returns b h)
    end.
Qed.

(** C8.  Whatever the environment, the engine and the input,
    [analyze_image], the engine's [detect_labels] and the standalone
    [detect_labels] return a value and raise nothing.  The value is an
    error result or carries data: a successful analysis, or a label
    analysis marked as a success. *)
Theorem public_operations_return_a_result :
  forall X : Externals,
    (forall (self : ImageRecognitionEngine.t) (image_path : option string)
            (image_array : option ndarray),
        exists r,
          outcome (ImageRecognitionEngine.analyze_image X self image_path
                     image_array) = inr r
          /\ ((exists e, r = AnalysisError e) \/ carries_data r))
    /\ (forall (self : ImageRecognitionEngine.t) (image_path : string),
          exists r,
            outcome (ImageRecognitionEngine.detect_labels X self image_path)
            = inr r
            /\ ((exists e, r = LabelError e)
                \/ exists l, r = Labels l /\ LabelAnalysis.success l = true))
    /\ (forall image_path : string,
          exists r,
            outcome (detect_labels X image_path) = inr r
            /\ ((exists e, r = LabelDetectionError e)
                \/ exists l, r = LabelsDetected l
                             /\ LabelDetection.success l = true)).
Proof.
  intros X. split; [| split].
  - intros self image_path image_array.
    destruct (ImageRecognitionEngine.initialized self) eqn:Hi.
    + destruct (analyze_image_returns X self image_path image_array)
        as (r & Hr).
      exists r. split; [exact Hr |].
      apply (analyze_image_inr X) in Hr
        as [-> | [[p ->] | [[image H] | [e ->]]]]; eauto.
      right. eauto using dispatch_carries_data.
    + unfold ImageRecognitionEngine.analyze_image. rewrite Hi. cbn. eauto.
  - intros self image_path. unfold ImageRecognitionEngine.detect_labels.
    destruct (ImageRecognitionEngine.vision_api_available self); cbn [negb].
    + match goal with
      | |- context [try_except ?b (fun e => ret (@?h e))] =>
          destruct (try_except_returns b h) as [r Hr];
          exists r; split; [exact Hr |];
          apply try_except_inr in Hr as [Hr | (e & _ & ->)]; [| eauto]
      end.
      apply bind_inr in Hr as (content & _ & Hr).
      apply bind_inr in Hr as (client & _ & Hr).
      apply bind_inr in Hr as (response & _ & Hr).
      injection Hr as <-. right. eauto.
    + eexists. split; [reflexivity | eauto].
  - intros image_path. unfold detect_labels.
    match goal with
    | |- context [try_except ?b (fun e => ret (@?h e))] =>
        destruct (try_except_returns b h) as [r Hr];
        exists r; split; [exact Hr |];
        apply try_except_inr in Hr as [Hr | (e & _ & ->)]; [| eauto]
    end.
    apply bind_inr in Hr as (client & _ & Hr).
    apply bind_inr in Hr as (content & _ & Hr).
    apply bind_inr in Hr as (response & _ & Hr).
    injection Hr as <-. right. eauto.
Qed.

(** ** Sorting by descending key *)

Section SortedFacts.
Context {A : Type} (key : A -> float).

Lemma insert_by_key_perm x l : Permutation (x :: l) (insert_by_key key x l).
Proof.
  induction l as [|y l IH]; simpl; [reflexivity |].
  destruct (key x <? key y)%float; [reflexivity |].
  rewrite perm_swap. now constructor.
Qed.

Lemma fold_insert_perm l acc :
  Permutation (l ++ acc)
    (fold_left (fun acc x => insert_by_key key x acc) l acc).
Proof.
  revert acc. induction l as [|x l IH]; intros acc; simpl; [reflexivity |].
  rewrite <- IH. rewrite <- insert_by_key_perm. apply Permutation_middle.
Qed.

Lemma sort_by_key_perm l : Permutation l (sort_by_key key l).
Proof.
  unfold sort_by_key. rewrite <- fold_insert_perm. now rewrite app_nil_r.
Qed.

Lemma sorted_reverse_perm l : Permutation l (sorted_reverse key l).
Proof.
  unfold sorted_reverse.
  rewrite <- Permutation_rev, <- sort_by_key_perm. apply Permutation_rev.
Qed.

Lemma insert_by_key_sorted x l :
  key_is_number key x -> Forall (key_is_number key) l ->
  StronglySorted (key_le key) l ->
  StronglySorted (key_le key) (insert_by_key key x l).
Proof.
  intros Hx Hl Hs. induction Hs as [|y l Hs IH Hy]; simpl.
  - repeat constructor.
  - inversion Hl as [|? ? Hny Hnl]; subst.
    destruct (key x <? key y)%float eqn:E.
    + constructor; [now constructor |].
      apply ltb_leb in E. constructor; [exact E |].
      eapply Forall_impl; [| exact Hy].
      intros z Hz. unfold key_le in *. eauto using leb_trans.
    + constructor; [auto |].
      eapply Permutation_Forall; [apply insert_by_key_perm |].
      constructor; [| exact Hy].
      now apply not_ltb_leb.
Qed.

Lemma fold_insert_sorted l acc :
  Forall (key_is_number key) l -> Forall (key_is_number key) acc ->
  StronglySorted (key_le key) acc ->
  StronglySorted (key_le key)
    (fold_left (fun acc x => insert_by_key key x acc) l acc).
Proof.
  revert acc. induction l as [|x l IH]; intros acc Hl Hacc Hs; simpl;
    [exact Hs |].
  inversion Hl; subst. apply IH; trivial.
  - eapply Permutation_Forall; [apply insert_by_key_perm |]. now constructor.
  - now apply insert_by_key_sorted.
Qed.

Lemma StronglySorted_snoc (R : A -> A -> Prop) l x :
  StronglySorted R l -> Forall (fun y => R y x) l ->
  StronglySorted R (l ++ [x]).
Proof.
  induction 1 as [|y l Hs IH Hy]; intros Hx; simpl.
  - repeat constructor.
  - inversion Hx; subst. constructor; [auto |].
    apply Forall_app. split; [exact Hy | now repeat constructor].
Qed.

Lemma StronglySorted_rev (R : A -> A -> Prop) l :
  StronglySorted R l -> StronglySorted (fun a b => R b a) (rev l).
Proof.
  induction 1 as [|y l Hs IH Hy]; simpl; [constructor |].
  apply StronglySorted_snoc; [exact IH | now apply Forall_rev].
Qed.

(** On keys that are numbers, [sorted(..., reverse=True)] puts every
    element before the elements of smaller or equal key. *)
Lemma sorted_reverse_descending l :
  Forall (key_is_number key) l ->
  StronglySorted (fun a b => fge (key a) (key b)) (sorted_reverse key l).
Proof.
  intros Hl. unfold sorted_reverse, fge.
  apply (StronglySorted_rev (key_le key)).
  apply fold_insert_sorted; [now apply Forall_rev | constructor | constructor].
Qed.
End SortedFacts.

(** ** Anomalies of a label map *)

Lemma filter_length_perm {A} (f : A -> bool) l l' :
  Permutation l l' ->
  List.length (filter f l) = List.length (filter f l').
Proof.
  induction 1 as [| x l l' _ IH | x y l | l l' l'' _ IH1 _ IH2]; simpl.
  - reflexivity.
  - destruct (f x); simpl; congruence.
  - destruct (f x), (f y); reflexivity.
  - congruence.
Qed.

Section Anomalies.
Import ImageRecognitionEngine.
Variable X : Externals.

(** The entries one keyword contributes pair it with a label it occurs in. *)
Lemma count_entries_one_keyword k keyword label (labels : dict string float) :
  count_entries keyword label
    (flat_map (fun '(l, score) =>
       if contains k (str_lower X l)
       then [{| Anomaly.type := k; Anomaly.label := l;
                Anomaly.score := score |}]
       else []) labels)
  = if String.eqb k keyword && contains keyword (str_lower X label)
    then List.length (filter (fun kv => String.eqb (fst kv) label) labels)
    else 0%nat.
Proof.
  unfold count_entries.
  induction labels as [|[l score] labels IH]; simpl.
  - now destruct (_ && _).
  - rewrite filter_app, length_app, IH. clear IH.
    destruct (String.eqb_spec k keyword) as [-> | Hk];
      destruct (String.eqb_spec l label) as [-> | Hl]; simpl.
    + destruct (contains keyword (str_lower X label)); simpl;
        rewrite ?String.eqb_refl; reflexivity.
    + destruct (contains keyword (str_lower X l)); simpl;
        rewrite ?String.eqb_refl; simpl;
        try (apply String.eqb_neq in Hl; rewrite Hl); reflexivity.
    + destruct (contains k (str_lower X label)); simpl;
        try (apply String.eqb_neq in Hk; rewrite Hk); reflexivity.
    + destruct (contains k (str_lower X l)); simpl;
        try (apply String.eqb_neq in Hk; rewrite Hk); reflexivity.
Qed.

Lemma count_entries_matching keywords keyword label labels :
  count_entries keyword label (matching_anomalies X keywords labels)
  = if contains keyword (str_lower X label)
    then (count_occ string_dec keywords keyword
          * List.length (filter (fun kv => String.eqb (fst kv) label) labels))%nat
    else 0%nat.
Proof.
  unfold matching_anomalies.
  induction keywords as [|k keywords IH].
  - simpl. now destruct (contains _ _).
  - cbn [flat_map]. unfold count_entries in *.
    rewrite filter_app, length_app, IH.
    fold (count_entries keyword label
            (flat_map (fun '(l, score) =>
               if contains k (str_lower X l)
               then [{| Anomaly.type := k; Anomaly.label := l;
                        Anomaly.score := score |}]
               else []) labels)).
    rewrite count_entries_one_keyword. cbn [count_occ].
    destruct (string_dec k keyword) as [-> | Hk].
    + rewrite String.eqb_refl. cbn [andb].
      destruct (contains keyword (str_lower X label)); lia.
    + apply String.eqb_neq in Hk. rewrite Hk. cbn [andb].
      destruct (contains keyword (str_lower X label)); lia.
Qed.

(** In a map, whose keys are unique, a key has one entry. *)
Lemma count_key_NoDup label (labels : dict string float) :
  NoDup (keys labels) ->
  List.length (filter (fun kv => String.eqb (fst kv) label) labels)
  = if existsb (String.eqb label) (keys labels) then 1%nat else 0%nat.
Proof.
  unfold keys. induction labels as [|[l score] labels IH]; simpl;
    [reflexivity |].
  intros Hnd. inversion Hnd as [|? ? Hnotin Hnd']; subst.
  rewrite (String.eqb_sym label l).
  destruct (String.eqb_spec l label) as [-> | Hl]; simpl.
  - rewrite IH by exact Hnd'.
    destruct (existsb (String.eqb label) (map fst labels)) eqn:E;
      [| reflexivity].
    apply existsb_exists in E as (l' & Hin & Heq).
    apply String.eqb_eq in Heq. subst l'. contradiction.
  - now apply IH.
Qed.

Lemma matching_anomalies_sound keywords labels :
  Forall (fun a =>
    In (Anomaly.type a) keywords
    /\ In (Anomaly.label a, Anomaly.score a) labels
    /\ contains (Anomaly.type a) (str_lower X (Anomaly.label a)) = true)
    (matching_anomalies X keywords labels).
Proof.
  apply Forall_forall. intros a Ha. unfold matching_anomalies in Ha.
  apply in_flat_map in Ha as (k & Hk & Ha).
  apply in_flat_map in Ha as ([l score] & Hl & Ha).
  destruct (contains k (str_lower X l)) eqn:E; [| contradiction].
  destruct Ha as [<- | []]. simpl. auto.
Qed.

Lemma one_keyword_length k (labels : dict string float) :
  List.length
    (flat_map (fun '(l, score) =>
       if contains k (str_lower X l)
       then [{| Anomaly.type := k; Anomaly.label := l;
                Anomaly.score := score |}]
       else []) labels)
  = count_matches X labels k.
Proof.
  unfold count_matches.
  induction labels as [|[l score] labels IH]; [reflexivity |].
  cbn [flat_map filter fst]. rewrite length_app, IH.
  now destruct (contains k (str_lower X l)).
Qed.

Lemma matching_anomalies_length keywords labels :
  List.length (matching_anomalies X keywords labels)
  = list_sum (map (count_matches X labels) keywords).
Proof.
  unfold matching_anomalies.
  induction keywords as [|k keywords IH]; [reflexivity |].
  cbn [flat_map map]. rewrite length_app, IH, one_keyword_length.
  reflexivity.
Qed.

Lemma matching_anomalies_scores keywords labels :
  Forall (fun kv => is_nan (snd kv) = false) labels ->
  Forall (fun a => is_nan (Anomaly.score a) = false)
    (matching_anomalies X keywords labels).
Proof.
  intros Hl. eapply Forall_impl; [| apply matching_anomalies_sound].
  intros a (_ & Hin & _). rewrite Forall_forall in Hl.
  exact (Hl _ Hin).
Qed.
End Anomalies.

(** C3, as the code has it.  For a label map (unique keys, scores that are
    numbers), the list [_detect_anomalies] returns is in descending order
    of score.  Each of its entries pairs a keyword of the anomaly list with
    a label of the map in whose lower-cased form the keyword occurs, and
    carries that label's score.  Nothing is merged: a keyword and a label
    that match have as many entries as the keyword has occurrences in the
    keyword list (one for most keywords, two for "corrosion", "accident"
    and "collision", which the list holds twice), other pairs have none,
    and the length of the list is the number of matches summed over the
    keyword list. *)
Theorem detect_anomalies_sorted_not_deduplicated :
  forall (X : Externals) (labels : dict string float),
    NoDup (keys labels) ->
    Forall (fun kv => is_nan (snd kv) = false) labels ->
    let anomalies := ImageRecognitionEngine._detect_anomalies X labels in
    StronglySorted (fun a b => fge (Anomaly.score a) (Anomaly.score b))
      anomalies
    /\ Forall (fun a =>
         In (Anomaly.type a) ImageRecognitionEngine.anomaly_keywords
         /\ In (Anomaly.label a, Anomaly.score a) labels
         /\ occurs_in (Anomaly.type a) (str_lower X (Anomaly.label a)))
         anomalies
    /\ (forall keyword label,
          count_entries keyword label anomalies
          = if existsb (String.eqb label) (keys labels)
               && contains keyword (str_lower X label)
            then count_occ string_dec
                   ImageRecognitionEngine.anomaly_keywords keyword
            else 0%nat)
    /\ List.length anomalies
       = list_sum (map (count_matches X labels)
                     ImageRecognitionEngine.anomaly_keywords).
Proof.
  intros X labels Hnodup Hnum anomalies.
  assert (Hperm : Permutation
            (ImageRecognitionEngine.matching_anomalies X
               ImageRecognitionEngine.anomaly_keywords labels) anomalies)
    by apply sorted_reverse_perm.
  split; [| split; [| split]].
  - apply sorted_reverse_descending.
    now apply matching_anomalies_scores.
  - eapply Permutation_Forall; [exact Hperm |].
    eapply Forall_impl; [| apply matching_anomalies_sound].
    intros a (Hk & Hl & Hc). now rewrite <- contains_spec.
  - intros keyword label. unfold count_entries.
    rewrite <- (filter_length_perm _ _ _ Hperm).
    fold (count_entries keyword label
            (ImageRecognitionEngine.matching_anomalies X
               ImageRecognitionEngine.anomaly_keywords labels)).
    rewrite count_entries_matching, count_key_NoDup by exact Hnodup.
    destruct (existsb (String.eqb label) (keys labels)),
             (contains keyword (str_lower X label)); cbn [andb]; lia.
  - rewrite <- (Permutation_length Hperm).
    apply matching_anomalies_length.
Qed.

(** One entry per matching keyword and label is not what the loop gives:
    the keyword list holds "corrosion" twice, once among its English and
    once among its French words, so for the map {"corrosion": 0.5} the
    one pair of the keyword "corrosion" and the label "corrosion" has two
    entries, equal to each other. *)
Lemma detect_anomalies_repeated_keyword :
  NoDup (keys [("corrosion", 0.5%float)])
  /\ occurs_in "corrosion" (str_lower offline "corrosion")
  /\ ImageRecognitionEngine._detect_anomalies offline
       [("corrosion", 0.5%float)]
     = [{| Anomaly.type := "corrosion"; Anomaly.label := "corrosion";
           Anomaly.score := 0.5%float |};
        {| Anomaly.type := "corrosion"; Anomaly.label := "corrosion";
           Anomaly.score := 0.5%float |}]
  /\ count_entries "corrosion" "corrosion"
       (ImageRecognitionEngine._detect_anomalies offline
          [("corrosion", 0.5%float)]) <> 1%nat.
Proof.
  split; [| split; [| split]].
  - repeat constructor. intros [].
  - exists EmptyString, EmptyString. reflexivity.
  - vm_compute. reflexivity.
  - vm_compute. discriminate.
Qed.

(** ** Dicts built by insertion *)

Section DictFacts.
Context {V : Type}.

Lemma dict_get_set_same k (v : V) d :
  dict_get String.eqb k (dict_set String.eqb k v d) = Some v.
Proof.
  induction d as [|[k' v'] d IH]; simpl.
  - now rewrite String.eqb_refl.
  - destruct (String.eqb k k') eqn:E; simpl; rewrite E; [reflexivity | exact IH].
Qed.

Lemma dict_get_set_other k k' (v : V) d :
  k <> k' ->
  dict_get String.eqb k (dict_set String.eqb k' v d)
  = dict_get String.eqb k d.
Proof.
  intros Hne. induction d as [|[k'' v''] d IH]; simpl.
  - apply String.eqb_neq in Hne. now rewrite Hne.
  - destruct (String.eqb_spec k' k'') as [-> | Hk]; simpl.
    + apply String.eqb_neq in Hne. now rewrite Hne.
    + now rewrite IH.
Qed.

Lemma keys_dict_set k (v : V) d k' :
  In k' (keys (dict_set String.eqb k v d)) <-> k' = k \/ In k' (keys d).
Proof.
  unfold keys. induction d as [|[k'' v''] d IH]; simpl.
  - intuition.
  - destruct (String.eqb_spec k k'') as [-> | Hk]; simpl.
    + intuition.
    + rewrite IH. intuition.
Qed.

Lemma NoDup_dict_set k (v : V) d :
  NoDup (keys d) -> NoDup (keys (dict_set String.eqb k v d)).
Proof.
  induction d as [|[k' v'] d IH]; simpl.
  - intros _. repeat constructor. intros [].
  - intros Hnd. inversion Hnd as [|? ? Hnotin Hnd']; subst.
    destruct (String.eqb_spec k k') as [-> | Hk]; simpl.
    + now constructor.
    + constructor; [| now apply IH].
      intros Hin. apply (keys_dict_set k v d k') in Hin as [-> | Hin];
        [now apply Hk | contradiction].
Qed.

Context {A : Type} (key : A -> string) (val : A -> V).

Lemma fold_keys xs d k :
  In k (keys (fold_left (fun d x => dict_set String.eqb (key x) (val x) d) xs d))
  <-> In k (keys d) \/ exists x, In x xs /\ k = key x.
Proof.
  revert d. induction xs as [|x xs IH]; intros d; simpl.
  - split; [auto | intros [H | (x & [] & _)]; exact H].
  - rewrite IH, keys_dict_set. split.
    + intros [[-> | H] | (y & Hy & ->)]; eauto.
    + intros [H | (y & [<- | Hy] & ->)]; eauto.
Qed.

Lemma fold_NoDup xs d :
  NoDup (keys d) -> NoDup (keys (fold_left (fun d x => dict_set String.eqb (key x) (val x) d) xs d)).
Proof.
  revert d. induction xs as [|x xs IH]; intros d Hd; simpl; [exact Hd |].
  apply IH. now apply NoDup_dict_set.
Qed.

Lemma fold_get_untouched xs d k :
  (forall x, In x xs -> key x <> k) ->
  dict_get String.eqb k (fold_left (fun d x => dict_set String.eqb (key x) (val x) d) xs d) = dict_get String.eqb k d.
Proof.
  revert d. induction xs as [|x xs IH]; intros d Hk; simpl; [reflexivity |].
  rewrite IH by (intros y Hy; apply Hk; now right).
  apply dict_get_set_other. intros Heq.
  apply (Hk x); [now left | now symmetry].
Qed.

(** The value kept for a key is the one of the last element that has it. *)
Lemma dict_comprehension_last earlier a later :
  (forall x, In x later -> key x <> key a) ->
  dict_get String.eqb (key a)
    (dict_comprehension String.eqb key val (earlier ++ a :: later))
  = Some (val a).
Proof.
  intros Hlater. unfold dict_comprehension.
  rewrite fold_left_app. cbn [fold_left].
  rewrite fold_get_untouched by exact Hlater.
  apply dict_get_set_same.
Qed.

Lemma dict_comprehension_keys xs k :
  In k (keys (dict_comprehension String.eqb key val xs))
  <-> exists x, In x xs /\ k = key x.
Proof.
  unfold dict_comprehension. rewrite fold_keys. simpl.
  split; [intros [[] | H]; exact H | auto].
Qed.

Lemma dict_comprehension_NoDup xs :
  NoDup (keys (dict_comprehension String.eqb key val xs)).
Proof. apply fold_NoDup. constructor. Qed.
End DictFacts.

(** What a successful [detect_labels] puts in its result, in terms of the
    response of the service. *)
Lemma detect_labels_result X self image_path r :
  outcome (ImageRecognitionEngine.detect_labels X self image_path)
  = inr (Labels r) ->
  exists client content response,
    ImageRecognitionEngine.vision_client self = Some client
    /\ io_open_read X image_path = inr content
    /\ label_detection client content = inr response
    /\ LabelAnalysis.labels r =
       ImageRecognitionEngine.label_score_map X
         (Response.label_annotations response)
    /\ LabelAnalysis.anomalies r =
       ImageRecognitionEngine._detect_anomalies X (LabelAnalysis.labels r)
    /\ LabelAnalysis.anomalies_detected r =
       (0 <? Z.of_nat (List.length (LabelAnalysis.anomalies r))).
Proof.
  unfold ImageRecognitionEngine.detect_labels.
  destruct (ImageRecognitionEngine.vision_api_available self); cbn [negb];
    [| discriminate].
  intros H.
  match type of H with
  | outcome (try_except ?b (fun e => ret (@?h e))) = _ =>
      apply (try_except_inr b h) in H as [H | (e & _ & H)]; [| discriminate]
  end.
  apply bind_inr in H as (content & Hcontent & H).
  apply bind_inr in H as (client & Hclient & H).
  apply bind_inr in H as (response & Hresponse & H).
  injection H as <-. exists client, content, response. cbn.
  destruct (ImageRecognitionEngine.vision_client self) as [c|];
    [| discriminate].
  injection Hclient as <-. auto 10.
Qed.

Lemma standalone_detect_labels_result X image_path r :
  outcome (detect_labels X image_path) = inr (LabelsDetected r) ->
  exists client content response,
    vision_ImageAnnotatorClient X = inr client
    /\ io_open_read X image_path = inr content
    /\ label_detection client content = inr response
    /\ LabelDetection.labels r =
       ImageRecognitionEngine.label_score_map X
         (Response.label_annotations response)
    /\ LabelDetection.anomalies r =
       ImageRecognitionEngine.matching_anomalies X
         detect_labels_anomaly_keywords (LabelDetection.labels r)
    /\ LabelDetection.anomalies_detected r =
       (0 <? Z.of_nat (List.length (LabelDetection.anomalies r))).
Proof.
  unfold detect_labels. intros H.
  match type of H with
  | outcome (try_except ?b (fun e => ret (@?h e))) = _ =>
      apply (try_except_inr b h) in H as [H | (e & _ & H)]; [| discriminate]
  end.
  apply bind_inr in H as (client & Hclient & H).
  apply bind_inr in H as (content & Hcontent & H).
  apply bind_inr in H as (response & Hresponse & H).
  injection H as <-. exists client, content, response. cbn. auto 10.
Qed.

(** C9.  The label map built from a service response has exactly the
    lower-cased descriptions as keys, each once; and the score stored
    under a key is the score of the last response entry whose lower-cased
    description is that key, so of two entries equal after lower-casing
    the later one is kept.  Both [detect_labels] operations return this
    map as their [labels], built from the response their own client (the
    one the engine holds, the one the function has just built) gives for
    the bytes read from the image file. *)
Theorem label_score_map_last_write_wins :
  forall X : Externals,
    (forall (labels : list LabelAnnotation.t),
        (forall k,
            In k (keys (ImageRecognitionEngine.label_score_map X labels))
            <-> exists l, In l labels
                          /\ k = str_lower X (LabelAnnotation.description l))
        /\ NoDup (keys (ImageRecognitionEngine.label_score_map X labels))
        /\ (forall earlier l later,
              labels = earlier ++ l :: later ->
              (forall l', In l' later ->
                 str_lower X (LabelAnnotation.description l')
                 <> str_lower X (LabelAnnotation.description l)) ->
              dict_get String.eqb
                (str_lower X (LabelAnnotation.description l))
                (ImageRecognitionEngine.label_score_map X labels)
              = Some (LabelAnnotation.score l)))
    /\ (forall self image_path r,
          outcome (ImageRecognitionEngine.detect_labels X self image_path)
          = inr (Labels r) ->
          exists client content response,
            ImageRecognitionEngine.vision_client self = Some client
            /\ io_open_read X image_path = inr content
            /\ label_detection client content = inr response
            /\ LabelAnalysis.labels r =
               ImageRecognitionEngine.label_score_map X
                 (Response.label_annotations response))
    /\ (forall image_path r,
          outcome (detect_labels X image_path) = inr (LabelsDetected r) ->
          exists client content response,
            vision_ImageAnnotatorClient X = inr client
            /\ io_open_read X image_path = inr content
            /\ label_detection client content = inr response
            /\ LabelDetection.labels r =
               ImageRecognitionEngine.label_score_map X
                 (Response.label_annotations response)).
Proof.
  intros X. split; [| split].
  - intros labels. unfold ImageRecognitionEngine.label_score_map.
    split; [| split].
    + intros k. apply dict_comprehension_keys.
    + apply dict_comprehension_NoDup.
    + intros earlier l later -> Hlater.
      now apply (dict_comprehension_last
                   (fun l => str_lower X (LabelAnnotation.description l))).
  - intros self image_path r H.
    apply detect_labels_result in H
      as (client & content & response
          & Hclient & Hread & Hresp & Hlabels & _).
    exists client, content, response. auto.
  - intros image_path r H.
    apply standalone_detect_labels_result in H
      as (client & content & response
          & Hclient & Hread & Hresp & Hlabels & _).
    exists client, content, response. auto.
Qed.

Lemma positive_length_iff {A} (l : list A) :
  (0 <? Z.of_nat (List.length l)) = true <-> l <> [].
Proof.
  destruct l as [|a l].
  - split; [discriminate | intros H; now contradiction H].
  - split; [discriminate |].
    intros _. apply Z.ltb_lt. cbn [List.length]. lia.
Qed.

(** C10.  In every successful result of the engine's [detect_labels] and
    of the standalone [detect_labels], [anomalies_detected] is true exactly
    when the [anomalies] list of that result is not empty. *)
Theorem anomalies_detected_iff_anomalies_nonempty :
  forall X : Externals,
    (forall self image_path r,
        outcome (ImageRecognitionEngine.detect_labels X self image_path)
        = inr (Labels r) ->
        (LabelAnalysis.anomalies_detected r = true
         <-> LabelAnalysis.anomalies r <> []))
    /\ (forall image_path r,
          outcome (detect_labels X image_path) = inr (LabelsDetected r) ->
          (LabelDetection.anomalies_detected r = true
           <-> LabelDetection.anomalies r <> [])).
Proof.
  intros X. split.
  - intros self image_path r H.
    apply detect_labels_result in H as (_ & _ & _ & _ & _ & _ & _ & _ & ->).
    apply positive_length_iff.
  - intros image_path r H.
    apply standalone_detect_labels_result in H
      as (_ & _ & _ & _ & _ & _ & _ & _ & ->).
    apply positive_length_iff.
Qed.

(* ================================================================== *)
(** * The properties at concrete inputs *)

(** The two sample engines are the ones the constructor builds. *)
Lemma init_offline :
  ImageRecognitionEngine.__init__ offline
  = ([ev_client_init], inr offline_engine).
Proof. reflexivity. Qed.

Lemma init_workstation :
  ImageRecognitionEngine.__init__ workstation
  = ([ev_readNet "models/detection_model.pb";
      ev_load_labels "models/labels.pbtxt"; ev_client_init],
     inr workstation_engine).
Proof. reflexivity. Qed.

(** Of the three rows the sample detector answers, with confidences 0.875,
    0.5 and 0.75, the two above the threshold 0.5 are returned. *)
Lemma analyze_image_detections_above_threshold_witness :
  exists r,
    outcome (ImageRecognitionEngine.analyze_image workstation
               workstation_engine (Some "car.jpg") None) = inr (ModelBased r)
    /\ map Detection.confidence (ModelAnalysis.detections r)
       = [0.875%float; 0.75%float]
    /\ Forall (fun d =>
         (0.5 <? Detection.confidence d)%float = true
         /\ (Detection.confidence d <=? 0.5)%float = false)
         (ModelAnalysis.detections r).
Proof.
  eexists. split; [vm_compute; reflexivity |].
  split; [reflexivity |].
  apply (analyze_image_detections_above_threshold workstation
           workstation_engine (Some "car.jpg") None).
  vm_compute. reflexivity.
Defined.

Lemma is_car_related_witness :
  ImageRecognitionEngine._is_car_related offline [("car door", 0.9%float)]
  = true
  /\ ImageRecognitionEngine._is_car_related offline [("flower", 0.8%float)]
     = false.
Proof.
  split.
  - apply (proj1 (proj2 (is_car_related_iff_keyword_in_label offline))).
    reflexivity.
  - apply (proj2 (proj2 (is_car_related_iff_keyword_in_label offline))).
    reflexivity.
Defined.

Lemma sample_labels_NoDup : NoDup (keys sample_labels).
Proof.
  repeat constructor; simpl; intuition discriminate.
Qed.

Lemma sample_labels_numbers :
  Forall (fun kv => is_nan (snd kv) = false) sample_labels.
Proof. repeat constructor. Qed.

(** On the sample map the anomalies come out as cracked glass (0.9) twice,
    for "crack" and for "cracked", then rusty bolt (0.4) twice, for "rust"
    and for "rusty". *)
Lemma detect_anomalies_witness :
  map (fun a => (Anomaly.type a, Anomaly.label a))
    (ImageRecognitionEngine._detect_anomalies offline sample_labels)
  = [("crack", "cracked glass"); ("cracked", "cracked glass");
     ("rust", "rusty bolt"); ("rusty", "rusty bolt")]
  /\ StronglySorted (fun a b => fge (Anomaly.score a) (Anomaly.score b))
       (ImageRecognitionEngine._detect_anomalies offline sample_labels)
  /\ count_entries "crack" "cracked glass"
       (ImageRecognitionEngine._detect_anomalies offline sample_labels) = 1%nat
  /\ count_entries "cracked" "cracked glass"
       (ImageRecognitionEngine._detect_anomalies offline sample_labels) = 1%nat.
Proof.
  pose proof (detect_anomalies_sorted_not_deduplicated offline sample_labels
                sample_labels_NoDup sample_labels_numbers) as H.
  cbv zeta in H. destruct H as (Hsorted & _ & Hcount & _).
  split; [reflexivity |].
  split; [exact Hsorted |].
  split; rewrite Hcount; reflexivity.
Defined.

Lemma generate_diagnoses_frein_witness :
  In ImageRecognitionEngine.brake_advisory
    (ImageRecognitionEngine._generate_diagnoses offline
       [detection_of_class "pneu"; detection_of_class "Disque de Frein"]).
Proof.
  apply (proj2 (generate_diagnoses_empty_and_frein offline)
           _ (detection_of_class "Disque de Frein")).
  - right. left. reflexivity.
  - exists "disque de ", EmptyString. reflexivity.
Defined.

Lemma detect_labels_unavailable_witness :
  ImageRecognitionEngine.vision_api_available offline_engine = false
  /\ trace (ImageRecognitionEngine.detect_labels offline offline_engine
              "car.jpg") = [].
Proof.
  pose proof (detect_labels_unavailable_no_call offline offline_engine)
    as [Hflag Hcall].
  assert (H : ImageRecognitionEngine.vision_api_available offline_engine
              = false).
  { apply Hflag; [reflexivity | eexists; reflexivity]. }
  split; [exact H |].
  exact (proj1 (proj2 (Hcall H "car.jpg"))).
Defined.

Lemma analyze_image_without_model_witness :
  ImageRecognitionEngine.net offline_engine = None
  /\ exists b,
       outcome (ImageRecognitionEngine.analyze_image workstation basic_engine
                  (Some "car.jpg") None) = inr (Basic b)
       /\ BasicAnalysis.type b = "basic_analysis".
Proof.
  split.
  - apply (proj1 (analyze_image_without_model_is_basic offline offline_engine));
      reflexivity.
  - destruct (proj2 (analyze_image_without_model_is_basic workstation
                       basic_engine) eq_refl (Some "car.jpg") None)
      as [_ Hres].
    eexists. split; [vm_compute; reflexivity |].
    match goal with
    | |- BasicAnalysis.type ?b = _ =>
        destruct (Hres (Basic b)) as [[e He] | (b' & Hb & Htype & _)];
          [vm_compute; reflexivity | discriminate |
           injection Hb as ->; exact Htype]
    end.
Defined.

Lemma analyze_image_input_error_witness :
  exists r,
    outcome (ImageRecognitionEngine.analyze_image workstation basic_engine
               (Some "nope.jpg") None) = inr r
    /\ (input_error r <-> no_usable_input workstation (Some "nope.jpg") None)
    /\ (no_usable_input workstation (Some "nope.jpg") None ->
        Forall (fun ev => is_analysis ev = false)
          (trace (ImageRecognitionEngine.analyze_image workstation
                    basic_engine (Some "nope.jpg") None))).
Proof.
  apply (analyze_image_input_error_iff workstation basic_engine
           (Some "nope.jpg") None).
  reflexivity.
Defined.

(** "Rusty Car" (0.75) and "rusty car" (0.25) share the key "rusty car":
    the later score, 0.25, is the one kept. *)
Lemma label_score_map_witness :
  dict_get String.eqb "rusty car"
    (ImageRecognitionEngine.label_score_map workstation
       [{| LabelAnnotation.description := "Rusty Car";
           LabelAnnotation.score := 0.75%float |};
        {| LabelAnnotation.description := "Flower";
           LabelAnnotation.score := 0.5%float |};
        {| LabelAnnotation.description := "rusty car";
           LabelAnnotation.score := 0.25%float |}])
  = Some 0.25%float.
Proof.
  refine (proj2 (proj2 (proj1 (label_score_map_last_write_wins workstation) _))
            [{| LabelAnnotation.description := "Rusty Car";
                LabelAnnotation.score := 0.75%float |};
             {| LabelAnnotation.description := "Flower";
                LabelAnnotation.score := 0.5%float |}]
            {| LabelAnnotation.description := "rusty car";
               LabelAnnotation.score := 0.25%float |}
            [] eq_refl _).
  intros l' [].
Defined.

Lemma anomalies_detected_witness :
  exists r,
    outcome (ImageRecognitionEngine.detect_labels workstation
               workstation_engine "car.jpg") = inr (Labels r)
    /\ (LabelAnalysis.anomalies_detected r = true
        <-> LabelAnalysis.anomalies r <> []).
Proof.
  eexists. split; [vm_compute; reflexivity |].
  apply (proj1 (anomalies_detected_iff_anomalies_nonempty workstation)
           workstation_engine "car.jpg").
  vm_compute. reflexivity.
Defined.

(* ================================================================== *)
(** * Further properties of the module *)

(** ** More on Python computations *)

Lemma outcome_bind_inr {A B} (c : Py A) (k : A -> Py B) a :
  outcome c = inr a -> outcome (bind c k) = outcome (k a).
Proof.
  destruct c as [t [e | a']]; simpl; [discriminate |].
  intros [= ->]. now destruct (k a).
Qed.

Lemma outcome_bind_inl {A B} (c : Py A) (k : A -> Py B) e :
  outcome c = inl e -> outcome (bind c k) = inl e.
Proof. destruct c as [t [e' | a]]; simpl; congruence. Qed.

(** A computation whose continuation always raises raises. *)
Lemma bind_raises {A B} (c : Py A) (k : A -> Py B) :
  (forall a, exists e, outcome (k a) = inl e) ->
  exists e, outcome (bind c k) = inl e.
Proof.
  intros Hk. destruct (outcome c) as [e | a] eqn:E.
  - exists e. now apply outcome_bind_inl.
  - destruct (Hk a) as [e He]. exists e.
    now rewrite (outcome_bind_inr _ _ _ E).
Qed.

Lemma for_each_returns {A B} (f : A -> Py B) xs :
  Forall (fun x => exists y, outcome (f x) = inr y) xs ->
  exists ys, outcome (for_each f xs) = inr ys.
Proof.
  induction 1 as [|x xs [y Hy] _ [ys Hys]]; simpl.
  - now exists [].
  - exists (y :: ys).
    rewrite (outcome_bind_inr _ _ _ Hy), (outcome_bind_inr _ _ _ Hys).
    reflexivity.
Qed.

Lemma for_each_raises {A B} (f : A -> Py B) x xs :
  (exists e, outcome (f x) = inl e) ->
  exists e, outcome (for_each f (x :: xs)) = inl e.
Proof.
  intros [e He]. exists e. simpl. now apply outcome_bind_inl.
Qed.

Lemma try_except_inl {A} (body : Py A) (handler : exception -> A) e :
  outcome body = inl e ->
  outcome (try_except body (fun e => ret (handler e))) = inr (handler e).
Proof. destruct body as [t [e' | a]]; simpl; congruence. Qed.

Lemma unpack_shape_inr image height width :
  outcome (unpack_shape image) = inr (height, width) ->
  exists channels, shape image = [height; width; channels].
Proof.
  unfold unpack_shape.
  destruct (shape image) as [|h [|w [|c [|? ?]]]]; try discriminate.
  intros [= -> ->]. now exists c.
Qed.

Lemma unpack_shape_bad image :
  List.length (shape image) <> 3%nat ->
  exists e, unpack_shape image = ([], inl e).
Proof.
  unfold unpack_shape.
  destruct (shape image) as [|h [|w [|c [|? ?]]]]; simpl; intros H;
    try (eexists; reflexivity).
  now contradiction H.
Qed.

(** ** The loop of the model-based analysis *)

Section ModelLoop.
Variable X : Externals.
Variable np_greater : float -> float -> bool.

Lemma py_int_inr x z : outcome (py_int x) = inr z -> float_trunc x = Some z.
Proof.
  unfold py_int. destruct (float_trunc x) as [z'|]; simpl.
  - now intros [= ->].
  - destruct (is_nan x); discriminate.
Qed.

Lemma py_int_raises x :
  float_trunc x = None -> exists e, outcome (py_int x) = inl e.
Proof.
  unfold py_int. intros ->. destruct (is_nan x); eexists; reflexivity.
Qed.

Lemma row_detections_inr self width height row ds :
  outcome (NumpyComparison.row_detections X np_greater self width height row)
  = inr ds ->
  (confident np_greater self row = true
   /\ exists d, ds = [d] /\ detection_of_row X self width height row d)
  \/ (confident np_greater self row = false /\ ds = []).
Proof.
  unfold NumpyComparison.row_detections, confident.
  destruct (np_greater (Row.confidence row)
              (ImageRecognitionEngine.confidence_threshold self)).
  - intros H. apply bind_inr in H as (z & Hz & H). injection H as <-.
    left. split; [reflexivity |]. eexists. split; [reflexivity |].
    exists z. apply py_int_inr in Hz. unfold class_name_of. simpl. auto.
  - intros [= <-]. now right.
Qed.

Lemma rows_detections_inr self width height rows per_row :
  outcome (for_each
             (NumpyComparison.row_detections X np_greater self width height)
             rows) = inr per_row ->
  Forall2 (detection_of_row X self width height)
    (filter (confident np_greater self) rows) (List.concat per_row).
Proof.
  intros H. apply for_each_inr in H.
  induction H as [|row ds rows per_row Hrow _ IH]; simpl; [constructor |].
  apply row_detections_inr in Hrow as [(-> & d & -> & Hd) | (-> & ->)];
    simpl; [now constructor | exact IH].
Qed.

Lemma row_detections_total self width height row :
  (confident np_greater self row = true ->
   float_trunc (Row.class_id row) <> None) ->
  exists ds,
    outcome (NumpyComparison.row_detections X np_greater self width height row)
    = inr ds.
Proof.
  unfold NumpyComparison.row_detections, confident.
  destruct (np_greater (Row.confidence row)
              (ImageRecognitionEngine.confidence_threshold self)).
  - intros H. specialize (H eq_refl). unfold py_int.
    destruct (float_trunc (Row.class_id row)) as [z|]; [| now contradiction H].
    eexists. reflexivity.
  - intros _. eexists. reflexivity.
Qed.

Lemma model_based_inr_class_ids self image r
  height width channels network blob rows :
  outcome (NumpyComparison._model_based_analysis X np_greater self image)
  = inr r ->
  shape image = [height; width; channels] ->
  ImageRecognitionEngine.net self = Some network ->
  cv2_dnn_blobFromImage X image = inr blob ->
  forward network blob = inr rows ->
  Forall (fun row => confident np_greater self row = true ->
                     float_trunc (Row.class_id row) <> None) rows.
Proof.
  intros H Hshape Hnet Hblob Hrows.
  unfold NumpyComparison._model_based_analysis in H.
  apply bind_inr in H as ([height' width'] & _ & H).
  apply bind_inr in H as (blob' & Hblob' & H).
  apply bind_inr in H as (network' & Hnet' & H).
  apply bind_inr in H as (rows' & Hrows' & H).
  apply bind_inr in H as (per_row & Hper & _).
  rewrite Hnet in Hnet'. injection Hnet' as <-.
  cbn in Hblob', Hrows'. rewrite Hblob in Hblob'. injection Hblob' as <-.
  rewrite Hrows in Hrows'. injection Hrows' as <-.
  apply for_each_inr in Hper. clear Hrows.
  induction Hper as [|row ds rows' per_row' Hrow _ IH]; constructor.
  - intros Hc.
    apply row_detections_inr in Hrow as [(_ & d & _ & z & Hz & _) | (Hn & _)];
      congruence.
  - exact IH.
Qed.
End ModelLoop.

(** The analysis of the engine is the one that compares the confidence
    and the threshold as binary64 numbers. *)
Lemma model_based_analysis_binary64 X self image :
  ImageRecognitionEngine._model_based_analysis X self image
  = NumpyComparison._model_based_analysis X binary64_greater self image.
Proof. reflexivity. Qed.

(** X1.  When the model-based analysis returns, its detections are, in the
    order of the network's output rows, the rows for which the test
    [confidence > self.confidence_threshold] holds, whichever way numpy
    compares the float32 confidence with the threshold: one detection a
    row, carrying the row's confidence, the name the label table gives
    its truncated class id (or the placeholder "Classe <id>"), and the
    box scaled to the image; [detected_count] is their number and the
    diagnoses are those of these detections. *)
Theorem model_based_detections_are_rows_passing_the_test :
  forall (X : Externals) (np_greater : float -> float -> bool)
         (self : ImageRecognitionEngine.t) (image : ndarray)
         (r : ModelAnalysis.t),
    outcome (NumpyComparison._model_based_analysis X np_greater self image)
    = inr r ->
    exists height width channels network blob rows,
      shape image = [height; width; channels]
      /\ ImageRecognitionEngine.net self = Some network
      /\ cv2_dnn_blobFromImage X image = inr blob
      /\ forward network blob = inr rows
      /\ Forall2 (detection_of_row X self width height)
           (filter (confident np_greater self) rows)
           (ModelAnalysis.detections r)
      /\ ModelAnalysis.detected_count r
         = Z.of_nat (List.length (filter (confident np_greater self) rows))
      /\ ModelAnalysis.dimensions r
         = {| Dimensions.width := width; Dimensions.height := height |}
      /\ ModelAnalysis.possible_diagnoses r
         = ImageRecognitionEngine._generate_diagnoses X
             (ModelAnalysis.detections r).
Proof.
  intros X np_greater self image r H.
  unfold NumpyComparison._model_based_analysis in H.
  apply bind_inr in H as ([height width] & Hshape & H).
  apply bind_inr in H as (blob & Hblob & H).
  apply bind_inr in H as (network & Hnet & H).
  apply bind_inr in H as (rows & Hrows & H).
  apply bind_inr in H as (per_row & Hper & H).
  injection H as <-.
  apply unpack_shape_inr in Hshape as [channels Hshape].
  destruct (ImageRecognitionEngine.net self) as [n|]; [| discriminate].
  injection Hnet as ->.
  pose proof (rows_detections_inr X np_greater _ _ _ _ _ Hper) as Hdet.
  exists height, width, channels, network, blob, rows. cbn.
  repeat split; trivial.
  now rewrite (Forall2_length Hdet).
Qed.

(** X2.  Once the image has three dimensions, the blob is built and the
    network answers, the model-based analysis returns exactly when every
    row that passes the test [confidence > self.confidence_threshold],
    whichever way numpy makes it, has a class id [int] accepts (neither
    NaN nor an infinity); a single such row with another class id makes
    the whole analysis raise, while the rows that fail the test are never
    converted. *)
Theorem model_based_returns_iff_class_ids_finite :
  forall (X : Externals) (np_greater : float -> float -> bool)
         (self : ImageRecognitionEngine.t) (image : ndarray)
         height width channels network blob rows,
    shape image = [height; width; channels] ->
    ImageRecognitionEngine.net self = Some network ->
    cv2_dnn_blobFromImage X image = inr blob ->
    forward network blob = inr rows ->
    ((exists r,
        outcome (NumpyComparison._model_based_analysis X np_greater self image)
        = inr r)
     <-> Forall (fun row => confident np_greater self row = true ->
                            float_trunc (Row.class_id row) <> None) rows).
Proof.
  intros X np_greater self image height width channels network blob rows
    Hshape Hnet Hblob Hrows.
  split.
  - intros [r Hr].
    exact (model_based_inr_class_ids X np_greater self image r _ _ _ _ _ _
             Hr Hshape Hnet Hblob Hrows).
  - intros Hall.
    unfold NumpyComparison._model_based_analysis.
    rewrite Hnet.
    destruct (for_each_returns
                (NumpyComparison.row_detections X np_greater self width height)
                rows) as [per_row Hper].
    { eapply Forall_impl; [| exact Hall].
      intros row. apply row_detections_total. }
    eexists.
    erewrite outcome_bind_inr
      by (unfold unpack_shape; rewrite Hshape; reflexivity).
    cbv beta iota.
    erewrite outcome_bind_inr by exact Hblob.
    erewrite outcome_bind_inr by reflexivity.
    erewrite outcome_bind_inr by exact Hrows.
    erewrite outcome_bind_inr by exact Hper.
    reflexivity.
Qed.

(** ** Images no analysis accepts *)

Lemma dispatch_bad_shape X self image e :
  unpack_shape image = ([], inl e) ->
  ImageRecognitionEngine.dispatch X self image = ([], inl e).
Proof.
  intros He. unfold ImageRecognitionEngine.dispatch,
    ImageRecognitionEngine._basic_image_analysis,
    ImageRecognitionEngine._model_based_analysis.
  rewrite He. now destruct (ImageRecognitionEngine.net self).
Qed.

(** X3.  An image whose shape does not have exactly three components (a
    grey-level image, for one) is never analysed, with or without a
    model: unpacking its shape raises, and [analyze_image] answers the
    catch-all error carrying the text of that very exception, and calls
    no OpenCV primitive and no network, whether the image was passed in
    memory or read from a path. *)
Theorem analyze_image_rejects_other_shapes :
  forall (X : Externals) (self : ImageRecognitionEngine.t) (image : ndarray),
    ImageRecognitionEngine.initialized self = true ->
    List.length (shape image) <> 3%nat ->
    exists e,
      unpack_shape image = ([], inl e)
      /\ (forall image_path,
             supplied_path image_path = None ->
             ImageRecognitionEngine.analyze_image X self image_path
               (Some image)
             = ([], inr (AnalysisError (ImageRecognitionEngine.error_result
                  ("Erreur lors de l'analyse de l'image: "
                     ++ exc_str e)%string))))
      /\ (forall image_path path image_array,
             supplied_path image_path = Some path ->
             cv2_imread X path = inr (Some image) ->
             ImageRecognitionEngine.analyze_image X self image_path
               image_array
             = ([ev_imread path],
                inr (AnalysisError (ImageRecognitionEngine.error_result
                  ("Erreur lors de l'analyse de l'image: "
                     ++ exc_str e)%string)))).
Proof.
  intros X self image Hinit Hshape.
  destruct (unpack_shape_bad image Hshape) as [e Hunpack].
  pose proof (dispatch_bad_shape X self image e Hunpack) as He.
  exists e. split; [exact Hunpack | split].
  - intros image_path Hpath.
    unfold ImageRecognitionEngine.analyze_image.
    rewrite Hinit, Hpath, He. reflexivity.
  - intros image_path path image_array Hpath Hread.
    unfold ImageRecognitionEngine.analyze_image.
    rewrite Hinit, Hpath. unfold call, bind. rewrite Hread, He. reflexivity.
Qed.

Lemma true_div_by_zero n :
  true_div n 0 = ([], inl (Exception "ZeroDivisionError" "division by zero")).
Proof. reflexivity. Qed.

Lemma basic_analysis_zero_area X image height width channels :
  shape image = [height; width; channels] ->
  height * width = 0 ->
  exists e,
    outcome (ImageRecognitionEngine._basic_image_analysis X image) = inl e.
Proof.
  intros Hshape Hzero.
  unfold ImageRecognitionEngine._basic_image_analysis.
  assert (Hunpack : outcome (unpack_shape image) = inr (height, width))
    by (unfold unpack_shape; now rewrite Hshape).
  erewrite outcome_bind_inr by exact Hunpack. cbv beta iota.
  apply bind_raises. intros gray.
  apply bind_raises. intros edges.
  apply bind_raises. intros contours.
  apply bind_raises. intros areas.
  apply bind_raises. intros hsv.
  destruct (for_each_raises
    (fun '(color_name, (lower, upper)) =>
       bind (call ev_inRange (cv2_inRange X hsv lower upper)) (fun mask =>
       bind (call ev_countNonZero (cv2_countNonZero X mask)) (fun count =>
       bind (true_div count (height * width)) (fun ratio =>
       ret (color_name, (ratio * 100)%float)))))
    ("rouge", ([0; 100; 100], [10; 255; 255]))
    [("jaune", ([20; 100; 100], [35; 255; 255]));
     ("vert", ([35; 50; 50], [85; 255; 255]));
     ("bleu", ([85; 50; 50], [130; 255; 255]))]) as [e He].
  { apply bind_raises. intros mask.
    apply bind_raises. intros count.
    rewrite Hzero, true_div_by_zero. eexists. reflexivity. }
  exists e. now apply outcome_bind_inl.
Qed.

(** X4.  Without a model, an image of zero area (height times width is
    zero) never yields a basic analysis: whatever the OpenCV primitives
    answer, the colour ratio divides by zero at the latest, and
    [analyze_image] answers the catch-all error. *)
Theorem analyze_image_zero_area_is_an_error :
  forall (X : Externals) (self : ImageRecognitionEngine.t) (image : ndarray)
         height width channels (image_path : option string),
    ImageRecognitionEngine.initialized self = true ->
    ImageRecognitionEngine.net self = None ->
    shape image = [height; width; channels] ->
    height * width = 0 ->
    supplied_path image_path = None ->
    exists e,
      outcome (ImageRecognitionEngine.analyze_image X self image_path
                 (Some image))
      = inr (AnalysisError (ImageRecognitionEngine.error_result
          ("Erreur lors de l'analyse de l'image: " ++ exc_str e)%string)).
Proof.
  intros X self image height width channels image_path
    Hinit Hnet Hshape Hzero Hpath.
  destruct (basic_analysis_zero_area X image _ _ _ Hshape Hzero) as [e He].
  exists e. unfold ImageRecognitionEngine.analyze_image.
  rewrite Hinit, Hpath. cbn [negb].
  rewrite dispatch_without_net by exact Hnet.
  apply (try_except_inl _ (fun e => AnalysisError
           (ImageRecognitionEngine.error_result
              ("Erreur lors de l'analyse de l'image: " ++ exc_str e)%string))).
  now apply outcome_bind_inl.
Qed.

(** ** The rules of the diagnoses *)

Lemma generate_diagnoses_selected X detections :
  ImageRecognitionEngine._generate_diagnoses X detections
  = match detected_classes X detections with
    | [] => [ImageRecognitionEngine.nothing_recognized]
    | classes =>
        match selected (diagnosis_rules classes) with
        | [] => [generic_diagnosis]
        | diagnoses => diagnoses
        end
    end.
Proof.
  unfold ImageRecognitionEngine._generate_diagnoses, detected_classes.
  destruct (map (fun d => str_lower X (Detection.class d)) detections)
    as [|c classes]; [reflexivity |].
  unfold diagnosis_rules, selected, ImageRecognitionEngine.component_diagnoses.
  cbn [flat_map map app].
  repeat match goal with
         | |- context [existsb ?f (c :: classes)] =>
             let b := fresh "b" in
             generalize (existsb f (c :: classes)); intros b
         end.
  repeat match goal with b : bool |- _ => destruct b end; reflexivity.
Qed.

Lemma selected_iff rules b message :
  NoDup (map snd rules) -> In (b, message) rules ->
  (In message (selected rules) <-> b = true).
Proof.
  unfold selected. intros Hnd Hin. rewrite in_map_iff. split.
  - intros ([b' m'] & Hm & Hf). simpl in Hm. subst m'.
    apply filter_In in Hf as [Hin' Hb']. simpl in Hb'. subst b'.
    clear -Hnd Hin Hin'.
    induction rules as [|[b0 m0] rules IH]; [contradiction |].
    simpl in Hnd. inversion Hnd as [|? ? Hnotin Hnd']; subst.
    destruct Hin as [Hin | Hin], Hin' as [Hin' | Hin'].
    + congruence.
    + injection Hin as -> ->. exfalso. apply Hnotin.
      exact (in_map snd _ _ Hin').
    + injection Hin' as -> ->. exfalso. apply Hnotin.
      exact (in_map snd _ _ Hin).
    + auto.
  - intros ->. exists (true, message). split; [reflexivity |].
    apply filter_In. auto.
Qed.

Lemma selected_nil_iff rules :
  selected rules = [] <-> Forall (fun rule => fst rule = false) rules.
Proof.
  unfold selected. induction rules as [|[b m] rules IH]; simpl.
  - split; [constructor | reflexivity].
  - destruct b; simpl.
    + split; [discriminate | intros H; inversion H; discriminate].
    + rewrite IH. split; [now constructor | intros H; now inversion H].
Qed.

Lemma diagnosis_messages_NoDup classes :
  NoDup (generic_diagnosis :: ImageRecognitionEngine.nothing_recognized
           :: map snd (diagnosis_rules classes)).
Proof.
  unfold diagnosis_rules, ImageRecognitionEngine.component_diagnoses.
  cbn [map app snd].
  repeat (constructor; [cbn [In]; intuition discriminate |]). constructor.
Qed.

Lemma existsb_contains_iff component classes :
  existsb (contains component) classes = true
  <-> exists c, In c classes /\ occurs_in component c.
Proof.
  rewrite existsb_exists. split; intros (c & Hc & H); exists c;
    (split; [exact Hc | now apply contains_spec]).
Qed.

Lemma existsb_eqb_iff word classes :
  existsb (String.eqb word) classes = true <-> In word classes.
Proof.
  rewrite existsb_exists. split.
  - intros (c & Hc & H). apply String.eqb_eq in H. now subst.
  - intros H. exists word. split; [exact H | apply String.eqb_refl].
Qed.

Lemma detected_classes_nil X detections :
  detected_classes X detections = [] <-> detections = [].
Proof.
  unfold detected_classes. destruct detections; simpl; split;
    congruence.
Qed.

(** On a non-empty detection list the output is the generic message alone
    when no rule holds, the messages of the rules that hold otherwise. *)
Lemma generate_diagnoses_nonempty_input X detections :
  detections <> [] ->
  ImageRecognitionEngine._generate_diagnoses X detections
  = match selected (diagnosis_rules (detected_classes X detections)) with
    | [] => [generic_diagnosis]
    | diagnoses => diagnoses
    end.
Proof.
  intros Hne. rewrite generate_diagnoses_selected.
  destruct (detected_classes X detections) eqn:E; [| reflexivity].
  apply detected_classes_nil in E. contradiction.
Qed.

Lemma generate_diagnoses_rule X detections b message :
  detections <> [] ->
  In (b, message) (diagnosis_rules (detected_classes X detections)) ->
  (In message (ImageRecognitionEngine._generate_diagnoses X detections)
   <-> b = true).
Proof.
  intros Hne Hin. rewrite generate_diagnoses_nonempty_input by exact Hne.
  pose proof (diagnosis_messages_NoDup (detected_classes X detections)) as Hnd.
  apply NoDup_cons_iff in Hnd as [Hgeneric Hnd'].
  apply NoDup_cons_iff in Hnd' as [_ Hrules].
  rewrite <- (selected_iff _ b message Hrules Hin).
  destruct (selected (diagnosis_rules (detected_classes X detections)));
    [| reflexivity].
  split; [| intros []].
  intros [<- | []]. exfalso. apply Hgeneric. right.
  exact (in_map snd _ _ Hin).
Qed.

(** X5.  On a non-empty detection list each advisory is decided by its own
    test on the lower-cased class names.  A component advisory (brakes,
    tyres, oil, engine, battery, headlights) is in the output exactly when
    its table key occurs inside some class name; the corrosion, leak and
    crack advisories are in the output exactly when some class name is
    equal to one of their words, a class that only contains the word does
    not count. *)
Theorem generate_diagnoses_rule_by_rule :
  forall (X : Externals) (detections : list Detection.t),
    detections <> [] ->
    let classes := detected_classes X detections in
    let diagnoses :=
      ImageRecognitionEngine._generate_diagnoses X detections in
    (forall component advice,
        In (component, advice) ImageRecognitionEngine.component_diagnoses ->
        (In advice diagnoses
         <-> exists c, In c classes /\ occurs_in component c))
    /\ (In corrosion_advisory diagnoses
        <-> In "rouille" classes \/ In "corrosion" classes)
    /\ (In leak_advisory diagnoses
        <-> In "fuite" classes \/ In "liquide" classes)
    /\ (In crack_advisory diagnoses <-> In "fissure" classes).
Proof.
  intros X detections Hne classes diagnoses. subst diagnoses.
  split; [| split; [| split]].
  - intros component advice Hin.
    rewrite <- existsb_contains_iff.
    apply generate_diagnoses_rule; [exact Hne |].
    unfold diagnosis_rules. apply in_or_app. left.
    exact (in_map (fun '(component, diagnosis) =>
             (existsb (contains component) classes, diagnosis)) _ _ Hin).
  - rewrite <- (existsb_eqb_iff "rouille"), <- (existsb_eqb_iff "corrosion"),
      <- orb_true_iff.
    apply generate_diagnoses_rule; [exact Hne |].
    unfold diagnosis_rules. apply in_or_app. right. now left.
  - rewrite <- (existsb_eqb_iff "fuite"), <- (existsb_eqb_iff "liquide"),
      <- orb_true_iff.
    apply generate_diagnoses_rule; [exact Hne |].
    unfold diagnosis_rules. apply in_or_app. right. right. now left.
  - rewrite <- (existsb_eqb_iff "fissure").
    apply generate_diagnoses_rule; [exact Hne |].
    unfold diagnosis_rules. apply in_or_app. right. right. right. now left.
Qed.

Lemma no_rule_holds_iff classes :
  Forall (fun rule => fst rule = false) (diagnosis_rules classes)
  <-> (forall component advice c,
          In (component, advice) ImageRecognitionEngine.component_diagnoses ->
          In c classes -> ~ occurs_in component c)
      /\ (forall word,
            In word ["rouille"; "corrosion"; "fuite"; "liquide"; "fissure"] ->
            ~ In word classes).
Proof.
  unfold diagnosis_rules. rewrite Forall_app, Forall_map. split.
  - intros [Hcomp Hcond]. split.
    + intros component advice c Hin Hc Hocc.
      rewrite Forall_forall in Hcomp. specialize (Hcomp _ Hin). simpl in Hcomp.
      assert (H : existsb (contains component) classes = true)
        by (apply existsb_contains_iff; eauto).
      congruence.
    + intros word Hword Hin. apply existsb_eqb_iff in Hin.
      repeat match goal with
             | H : Forall _ (_ :: _) |- _ => apply Forall_cons_iff in H as [? H]
             end.
      unfold fst in *.
      repeat match goal with
             | H : _ || _ = false |- _ => apply orb_false_iff in H as [? ?]
             end.
      cbn [In] in Hword.
      repeat destruct Hword as [<- | Hword]; try congruence; contradiction.
  - intros [Hcomp Hcond]. split.
    + apply Forall_forall. intros [component advice] Hin. simpl.
      destruct (existsb (contains component) classes) eqn:E; [| reflexivity].
      apply existsb_contains_iff in E as (c & Hc & Hocc).
      exfalso. exact (Hcomp _ _ _ Hin Hc Hocc).
    + assert (Hw : forall word,
        In word ["rouille"; "corrosion"; "fuite"; "liquide"; "fissure"] ->
        existsb (String.eqb word) classes = false).
      { intros word Hword.
        destruct (existsb (String.eqb word) classes) eqn:E; [| reflexivity].
        apply existsb_eqb_iff in E. exfalso. exact (Hcond _ Hword E). }
      repeat constructor; unfold fst;
        rewrite ?orb_false_iff; repeat split; apply Hw; simpl; auto 6.
Qed.

(** X6.  [_generate_diagnoses] never returns an empty list.  It returns
    the "nothing recognized" message alone exactly on the empty detection
    list, and the generic "no specific issue" message alone exactly on a
    non-empty list none of whose lower-cased class names contains a
    component key or is equal to one of the five condition words. *)
Theorem generate_diagnoses_never_empty :
  forall (X : Externals) (detections : list Detection.t),
    let classes := detected_classes X detections in
    let diagnoses :=
      ImageRecognitionEngine._generate_diagnoses X detections in
    diagnoses <> []
    /\ (diagnoses = [ImageRecognitionEngine.nothing_recognized]
        <-> detections = [])
    /\ (diagnoses = [generic_diagnosis]
        <-> detections <> []
            /\ (forall component advice c,
                   In (component, advice)
                     ImageRecognitionEngine.component_diagnoses ->
                   In c classes -> ~ occurs_in component c)
            /\ (forall word,
                   In word ["rouille"; "corrosion"; "fuite"; "liquide";
                            "fissure"] ->
                   ~ In word classes)).
Proof.
  intros X detections classes diagnoses. subst diagnoses classes.
  pose proof (diagnosis_messages_NoDup (detected_classes X detections)) as Hnd.
  apply NoDup_cons_iff in Hnd as [Hgeneric Hnd'].
  apply NoDup_cons_iff in Hnd' as [Hnothing _].
  rewrite <- no_rule_holds_iff, <- selected_nil_iff.
  destruct detections as [|d detections].
  - split; [discriminate | split; [split; reflexivity |]].
    split; [discriminate | intros [H _]; now contradiction H].
  - rewrite generate_diagnoses_nonempty_input by discriminate.
    set (rules := diagnosis_rules (detected_classes X (d :: detections))) in *.
    assert (Hsub : forall m, In m (selected rules) -> In m (map snd rules)).
    { intros m Hm. unfold selected in Hm. apply in_map_iff in Hm
        as (rule & <- & Hrule). apply filter_In in Hrule as [Hrule _].
      now apply in_map. }
    destruct (selected rules) as [|m sel] eqn:Esel.
    + split; [discriminate | split].
      * split; [discriminate | discriminate].
      * split; [intros _; split; [discriminate | reflexivity] | reflexivity].
    + split; [discriminate | split].
      * split; [| discriminate].
        intros [= -> ->]. exfalso. apply Hnothing. apply Hsub. now left.
      * split; [| intros [_ H]; discriminate].
        intros [= -> ->]. exfalso. apply Hgeneric. right. apply Hsub. now left.
Qed.

(** ** Ties keep their order *)

Lemma SFltb_leb_trans a b c :
  SFltb a b = true -> SFleb b c = true -> SFltb a c = true.
Proof.
  unfold SFltb, SFleb.
  destruct a as [[]|[]| |[] m1 e1], b as [[]|[]| |[] m2 e2],
           c as [[]|[]| |[] m3 e3]; sf_cases.
Qed.

Lemma SFeqb_ltb_neq a k c :
  SFeqb a k = true -> SFltb a c = true -> SFeqb c k = false.
Proof.
  unfold SFeqb, SFltb.
  destruct a as [[]|[]| |[] m1 e1], k as [[]|[]| |[] m2 e2],
           c as [[]|[]| |[] m3 e3]; sf_cases.
Qed.

Lemma SFltb_not_ltb_trans a b c :
  SFltb a b = true -> SFltb a c = false -> SFltb b c = false.
Proof.
  unfold SFltb.
  destruct a as [[]|[]| |[] m1 e1], b as [[]|[]| |[] m2 e2],
           c as [[]|[]| |[] m3 e3]; sf_cases.
Qed.

(** A key equal to [k] is not found after a strictly greater key. *)
Lemma eqb_after_greater (x y z k : float) :
  (x <? y)%float = true -> (y <=? z)%float = true ->
  (x =? k)%float = true -> (z =? k)%float = false.
Proof.
  rewrite ltb_spec, leb_spec, !eqb_spec. intros Hxy Hyz Hxk.
  eapply SFeqb_ltb_neq; [exact Hxk |].
  eapply SFltb_leb_trans; eassumption.
Qed.

(** The running maximum of [max] stays a maximum. *)
Lemma ltb_false_after_greater (a b c : float) :
  (a <? b)%float = true -> (a <? c)%float = false -> (b <? c)%float = false.
Proof. rewrite !ltb_spec. apply SFltb_not_ltb_trans. Qed.

Lemma SFltb_leb_refl a b : SFltb a b = true -> SFleb b b = true.
Proof.
  unfold SFltb, SFleb.
  destruct a as [[]|[]| |[] m1 e1], b as [[]|[]| |[] m2 e2]; sf_cases.
Qed.

Lemma leb_refl_of_greater (x y : float) :
  (x <? y)%float = true -> (y <=? y)%float = true.
Proof. rewrite ltb_spec, leb_spec. apply SFltb_leb_refl. Qed.

Lemma filter_none {A} (f : A -> bool) l :
  Forall (fun a => f a = false) l -> filter f l = [].
Proof.
  induction 1 as [|a l Ha _ IH]; simpl; [reflexivity |]. now rewrite Ha.
Qed.

Section Stability.
Context {A : Type} (key : A -> float) (k : float).

(** Inserting [x] leaves the elements of key [k] in their order, with [x]
    after them when its key is [k]. *)
Lemma insert_by_key_filter x l :
  StronglySorted (key_le key) l ->
  filter (fun a => (key a =? k)%float) (insert_by_key key x l)
  = filter (fun a => (key a =? k)%float) l
    ++ (if (key x =? k)%float then [x] else []).
Proof.
  induction 1 as [|y l Hs IH Hy]; simpl.
  - now destruct (key x =? k)%float.
  - destruct (key x <? key y)%float eqn:E; simpl.
    + destruct (key x =? k)%float eqn:Ex; [| now rewrite app_nil_r].
      assert (Hnone : filter (fun a => (key a =? k)%float) (y :: l) = []).
      { apply filter_none. constructor.
        - eauto using eqb_after_greater, leb_refl_of_greater.
        - eapply Forall_impl; [| exact Hy].
          intros z Hz. unfold key_le in Hz. eauto using eqb_after_greater. }
      simpl in Hnone. rewrite Hnone. reflexivity.
    + rewrite IH. destruct (key y =? k)%float; reflexivity.
Qed.

Lemma fold_insert_filter l acc :
  Forall (key_is_number key) l -> Forall (key_is_number key) acc ->
  StronglySorted (key_le key) acc ->
  filter (fun a => (key a =? k)%float)
    (fold_left (fun acc x => insert_by_key key x acc) l acc)
  = filter (fun a => (key a =? k)%float) acc
    ++ filter (fun a => (key a =? k)%float) l.
Proof.
  revert acc. induction l as [|x l IH]; intros acc Hl Hacc Hs; simpl.
  - now rewrite app_nil_r.
  - inversion Hl; subst. rewrite IH; trivial.
    + rewrite insert_by_key_filter by exact Hs.
      rewrite <- app_assoc. now destruct (key x =? k)%float.
    + eapply Permutation_Forall; [apply insert_by_key_perm |]. now constructor.
    + now apply insert_by_key_sorted.
Qed.

(** On keys that are numbers, [sorted(..., reverse=True)] keeps the
    elements of equal key in the order they had. *)
Lemma sorted_reverse_stable l :
  Forall (key_is_number key) l ->
  filter (fun a => (key a =? k)%float) (sorted_reverse key l)
  = filter (fun a => (key a =? k)%float) l.
Proof.
  intros Hl. unfold sorted_reverse, sort_by_key.
  rewrite filter_rev, fold_insert_filter;
    [| now apply Forall_rev | constructor | constructor].
  simpl. rewrite filter_rev. apply rev_involutive.
Qed.
End Stability.

(** X7.  Among the anomalies of a label map whose scores are numbers,
    entries of equal score keep the order in which the two loops found
    them: the order of the keyword list first, the order of the map
    second. *)
Theorem detect_anomalies_ties_in_keyword_order :
  forall (X : Externals) (labels : dict string float) (score : float),
    Forall (fun kv => is_nan (snd kv) = false) labels ->
    filter (fun a => (Anomaly.score a =? score)%float)
      (ImageRecognitionEngine._detect_anomalies X labels)
    = filter (fun a => (Anomaly.score a =? score)%float)
        (ImageRecognitionEngine.matching_anomalies X
           ImageRecognitionEngine.anomaly_keywords labels).
Proof.
  intros X labels score Hnum.
  unfold ImageRecognitionEngine._detect_anomalies.
  apply sorted_reverse_stable.
  now apply matching_anomalies_scores.
Qed.

(** ** The label analysis *)

Lemma detect_labels_inr X self image_path r :
  outcome (ImageRecognitionEngine.detect_labels X self image_path)
  = inr (Labels r) ->
  exists client content response,
    ImageRecognitionEngine.vision_api_available self = true
    /\ ImageRecognitionEngine.vision_client self = Some client
    /\ io_open_read X image_path = inr content
    /\ label_detection client content = inr response
    /\ r = {| LabelAnalysis.success := true;
              LabelAnalysis.labels :=
                ImageRecognitionEngine.label_score_map X
                  (Response.label_annotations response);
              LabelAnalysis.anomalies_detected :=
                0 <? Z.of_nat (List.length
                  (ImageRecognitionEngine._detect_anomalies X
                     (ImageRecognitionEngine.label_score_map X
                        (Response.label_annotations response))));
              LabelAnalysis.anomalies :=
                ImageRecognitionEngine._detect_anomalies X
                  (ImageRecognitionEngine.label_score_map X
                     (Response.label_annotations response));
              LabelAnalysis.sorted_labels :=
                sorted_reverse SortedLabel.score
                  (map label_entry
                     (ImageRecognitionEngine.label_score_map X
                        (Response.label_annotations response)));
              LabelAnalysis.car_related :=
                ImageRecognitionEngine._is_car_related X
                  (ImageRecognitionEngine.label_score_map X
                     (Response.label_annotations response));
              LabelAnalysis.warning :=
                if truthy_str (Response.error_message response)
                then Some ("API Error: "
                             ++ Response.error_message response)%string
                else None |}.
Proof.
  unfold ImageRecognitionEngine.detect_labels.
  destruct (ImageRecognitionEngine.vision_api_available self); cbn [negb];
    [| discriminate].
  intros H.
  match type of H with
  | outcome (try_except ?b (fun e => ret (@?h e))) = _ =>
      apply (try_except_inr b h) in H as [H | (e & _ & H)]; [| discriminate]
  end.
  apply bind_inr in H as (content & Hcontent & H).
  apply bind_inr in H as (client & Hclient & H).
  apply bind_inr in H as (response & Hresponse & H).
  injection H as <-. exists client, content, response.
  destruct (ImageRecognitionEngine.vision_client self) as [c|];
    [| discriminate].
  injection Hclient as <-. repeat split; trivial.
  f_equal. f_equal. apply map_ext. now intros [k v].
Qed.

Lemma entry_item_label_entry l : map entry_item (map label_entry l) = l.
Proof.
  rewrite map_map. rewrite <- (map_id l) at 2. apply map_ext.
  now intros [k v].
Qed.

(** X8.  In a successful result of the engine's [detect_labels],
    [sorted_labels] holds the items of [labels], each once and nothing
    else; when the scores are numbers it is in descending order of score,
    and labels of equal score keep the order they have in [labels]. *)
Theorem sorted_labels_is_labels_sorted :
  forall (X : Externals) (self : ImageRecognitionEngine.t)
         (image_path : string) (r : LabelAnalysis.t),
    outcome (ImageRecognitionEngine.detect_labels X self image_path)
    = inr (Labels r) ->
    Permutation (map entry_item (LabelAnalysis.sorted_labels r))
      (LabelAnalysis.labels r)
    /\ (Forall (fun kv => is_nan (snd kv) = false) (LabelAnalysis.labels r) ->
        StronglySorted
          (fun a b => fge (SortedLabel.score a) (SortedLabel.score b))
          (LabelAnalysis.sorted_labels r)
        /\ forall score,
             map entry_item
               (filter (fun l => (SortedLabel.score l =? score)%float)
                  (LabelAnalysis.sorted_labels r))
             = filter (fun kv => (snd kv =? score)%float)
                 (LabelAnalysis.labels r)).
Proof.
  intros X self image_path r H.
  apply detect_labels_inr in H as (client & content & response & _ & _ & _ & _ & ->).
  cbn [LabelAnalysis.sorted_labels LabelAnalysis.labels].
  set (labels := ImageRecognitionEngine.label_score_map X
                   (Response.label_annotations response)).
  split.
  - rewrite <- (entry_item_label_entry labels) at 2.
    apply Permutation_map. apply Permutation_sym, sorted_reverse_perm.
  - intros Hnum.
    assert (Hentries : Forall (key_is_number SortedLabel.score)
                         (map label_entry labels)).
    { apply Forall_map. eapply Forall_impl; [| exact Hnum]. now intros [k v]. }
    split; [now apply sorted_reverse_descending |].
    intros score. rewrite sorted_reverse_stable by exact Hentries.
    clear. induction labels as [|[k v] labels IH]; [reflexivity |].
    cbn [map filter label_entry SortedLabel.score fst snd].
    destruct (v =? score)%float; cbn [map]; now rewrite IH.
Qed.

(** ** The standalone function and the method *)

Lemma incl_by_check (small big : list string) :
  forallb (fun k => existsb (String.eqb k) big) small = true ->
  incl small big.
Proof.
  intros H k Hk. rewrite forallb_forall in H. specialize (H k Hk).
  now apply existsb_eqb_iff in H.
Qed.

Lemma car_keywords_incl :
  incl detect_labels_car_keywords ImageRecognitionEngine.car_keywords.
Proof. apply incl_by_check. vm_compute. reflexivity. Qed.

Lemma anomaly_keywords_incl :
  incl detect_labels_anomaly_keywords ImageRecognitionEngine.anomaly_keywords.
Proof. apply incl_by_check. vm_compute. reflexivity. Qed.

Lemma any_keyword_matches_incl X small big labels :
  incl small big ->
  ImageRecognitionEngine.any_keyword_matches X small labels = true ->
  ImageRecognitionEngine.any_keyword_matches X big labels = true.
Proof.
  unfold ImageRecognitionEngine.any_keyword_matches.
  intros Hincl H. apply existsb_exists in H as (k & Hk & H).
  apply existsb_exists. exists k. auto.
Qed.

Lemma matching_anomalies_incl X small big labels :
  incl small big ->
  incl (ImageRecognitionEngine.matching_anomalies X small labels)
       (ImageRecognitionEngine.matching_anomalies X big labels).
Proof.
  unfold ImageRecognitionEngine.matching_anomalies.
  intros Hincl a Ha. apply in_flat_map in Ha as (k & Hk & Ha).
  apply in_flat_map. exists k. auto.
Qed.

Lemma standalone_detect_labels_inr X image_path r :
  outcome (detect_labels X image_path) = inr (LabelsDetected r) ->
  exists client content response,
    vision_ImageAnnotatorClient X = inr client
    /\ io_open_read X image_path = inr content
    /\ label_detection client content = inr response
    /\ r = {| LabelDetection.success := true;
              LabelDetection.labels :=
                ImageRecognitionEngine.label_score_map X
                  (Response.label_annotations response);
              LabelDetection.anomalies_detected :=
                0 <? Z.of_nat (List.length
                  (ImageRecognitionEngine.matching_anomalies X
                     detect_labels_anomaly_keywords
                     (ImageRecognitionEngine.label_score_map X
                        (Response.label_annotations response))));
              LabelDetection.anomalies :=
                ImageRecognitionEngine.matching_anomalies X
                  detect_labels_anomaly_keywords
                  (ImageRecognitionEngine.label_score_map X
                     (Response.label_annotations response));
              LabelDetection.car_related :=
                ImageRecognitionEngine.any_keyword_matches X
                  detect_labels_car_keywords
                  (ImageRecognitionEngine.label_score_map X
                     (Response.label_annotations response)) |}.
Proof.
  unfold detect_labels. intros H.
  match type of H with
  | outcome (try_except ?b (fun e => ret (@?h e))) = _ =>
      apply (try_except_inr b h) in H as [H | (e & _ & H)]; [| discriminate]
  end.
  apply bind_inr in H as (client & Hclient & H).
  apply bind_inr in H as (content & Hcontent & H).
  apply bind_inr in H as (response & Hresponse & H).
  injection H as <-. exists client, content, response. auto.
Qed.

(** X9.  The standalone [detect_labels] never flags what the engine's
    analysis of the same labels would not: its keyword lists are parts of
    the engine's, so when it reports [car_related] the engine's
    [_is_car_related] holds on its label map, each anomaly it lists is
    among the engine's [_detect_anomalies] of that map, and when it
    reports [anomalies_detected] that list is not empty. *)
Theorem standalone_flags_are_engine_flags :
  forall (X : Externals) (image_path : string) (r : LabelDetection.t),
    outcome (detect_labels X image_path) = inr (LabelsDetected r) ->
    (LabelDetection.car_related r = true ->
     ImageRecognitionEngine._is_car_related X (LabelDetection.labels r) = true)
    /\ incl (LabelDetection.anomalies r)
         (ImageRecognitionEngine._detect_anomalies X (LabelDetection.labels r))
    /\ (LabelDetection.anomalies_detected r = true ->
        ImageRecognitionEngine._detect_anomalies X (LabelDetection.labels r)
        <> []).
Proof.
  intros X image_path r H.
  apply standalone_detect_labels_inr in H
    as (client & content & response & _ & _ & _ & ->).
  cbn [LabelDetection.car_related LabelDetection.labels
       LabelDetection.anomalies LabelDetection.anomalies_detected].
  set (labels := ImageRecognitionEngine.label_score_map X
                   (Response.label_annotations response)).
  assert (Hincl : incl
    (ImageRecognitionEngine.matching_anomalies X
       detect_labels_anomaly_keywords labels)
    (ImageRecognitionEngine._detect_anomalies X labels)).
  { intros a Ha. unfold ImageRecognitionEngine._detect_anomalies.
    eapply Permutation_in; [apply sorted_reverse_perm |].
    exact (matching_anomalies_incl X _ _ labels anomaly_keywords_incl a Ha). }
  split; [| split].
  - apply any_keyword_matches_incl, car_keywords_incl.
  - exact Hincl.
  - intros Hdet Hnil. apply positive_length_iff in Hdet.
    destruct (ImageRecognitionEngine.matching_anomalies X
                detect_labels_anomaly_keywords labels) as [|a l] eqn:E;
      [now apply Hdet |].
    specialize (Hincl a (or_introl eq_refl)). rewrite Hnil in Hincl.
    contradiction.
Qed.

(** ** The constructor and the calls that follow it *)







(** X12.  When the image file cannot be read, both [detect_labels] return
    the error result carrying the text of the exception, and the label
    detection service is not called: the method makes the file read its
    only call, the standalone function only builds its client before. *)
Theorem detect_labels_unreadable_file :
  forall (X : Externals) (image_path : string) (exn : exception),
    io_open_read X image_path = inl exn ->
    (forall self,
        ImageRecognitionEngine.vision_api_available self = true ->
        ImageRecognitionEngine.detect_labels X self image_path
        = ([ev_open_read image_path], inr (LabelError (vision_error exn))))
    /\ (forall client,
          vision_ImageAnnotatorClient X = inr client ->
          detect_labels X image_path
          = ([ev_client_init; ev_open_read image_path],
             inr (LabelDetectionError (vision_error exn)))).
Proof.
  intros X image_path exn Hread. split.
  - intros self Hflag. unfold ImageRecognitionEngine.detect_labels.
    rewrite Hflag. unfold call, bind, try_except. rewrite Hread. reflexivity.
  - intros client Hclient. unfold detect_labels, call, bind, try_except.
    rewrite Hclient, Hread. reflexivity.
Qed.

(** X13.  A successful label analysis without labels reports nothing:
    when [labels] is empty, as it is when the service answers no label,
    both [detect_labels] return no anomaly, [anomalies_detected] false and
    [car_related] false, and the method returns no sorted label. *)
Theorem detect_labels_without_labels :
  forall X : Externals,
    (forall self image_path r,
        outcome (ImageRecognitionEngine.detect_labels X self image_path)
        = inr (Labels r) ->
        LabelAnalysis.labels r = [] ->
        LabelAnalysis.anomalies r = []
        /\ LabelAnalysis.anomalies_detected r = false
        /\ LabelAnalysis.car_related r = false
        /\ LabelAnalysis.sorted_labels r = [])
    /\ (forall image_path r,
          outcome (detect_labels X image_path) = inr (LabelsDetected r) ->
          LabelDetection.labels r = [] ->
          LabelDetection.anomalies r = []
          /\ LabelDetection.anomalies_detected r = false
          /\ LabelDetection.car_related r = false).
Proof.
  intros X. split.
  - intros self image_path r H Hnil.
    apply detect_labels_inr in H as (c & content & response & _ & _ & _ & _ & ->).
    cbn in Hnil |- *. rewrite Hnil. repeat split; reflexivity.
  - intros image_path r H Hnil.
    apply standalone_detect_labels_inr in H
      as (c & content & response & _ & _ & _ & ->).
    cbn in Hnil |- *. rewrite Hnil. repeat split; reflexivity.
Qed.

(** ** The basic analysis *)

Lemma SFltb_irrefl a : SFltb a a = false.
Proof.
  unfold SFltb. destruct a as [[]|[]| |[] m e]; sf_cases.
Qed.

Lemma ltb_irrefl (a : float) : (a <? a)%float = false.
Proof. rewrite ltb_spec. apply SFltb_irrefl. Qed.

(** [max] returns an element no element of the list exceeds. *)
Lemma max_by_key_inr {A} (key : A -> float) xs best :
  outcome (max_by_key key xs) = inr best ->
  In best xs /\ Forall (fun y => (key best <? key y)%float = false) xs.
Proof.
  destruct xs as [|x xs]; [discriminate |]. simpl. intros [= <-].
  assert (Hgen : forall seen l b,
    In b seen -> Forall (fun y => (key b <? key y)%float = false) seen ->
    let best := fold_left
      (fun best y => if (key best <? key y)%float then y else best) l b in
    In best (seen ++ l)
    /\ Forall (fun y => (key best <? key y)%float = false) (seen ++ l)).
  { intros seen l. revert seen.
    induction l as [|y l IH]; intros seen b Hin Hmax; simpl.
    - rewrite app_nil_r. auto.
    - replace (seen ++ y :: l) with ((seen ++ [y]) ++ l)
        by (rewrite <- app_assoc; reflexivity).
      destruct (key b <? key y)%float eqn:E; apply IH.
      + apply in_or_app. right. now left.
      + apply Forall_app. split.
        * eapply Forall_impl; [| exact Hmax].
          intros z Hz. eauto using ltb_false_after_greater.
        * repeat constructor. apply ltb_irrefl.
      + apply in_or_app. now left.
      + apply Forall_app. split; [exact Hmax | now repeat constructor]. }
  apply (Hgen [x] xs x).
  - now left.
  - repeat constructor. apply ltb_irrefl.
Qed.

Lemma dict_set_fresh {V} k (v : V) d :
  ~ In k (keys d) -> dict_set String.eqb k v d = d ++ [(k, v)].
Proof.
  unfold keys. induction d as [|[k' v'] d IH]; simpl; [reflexivity |].
  intros Hnotin. destruct (String.eqb_spec k k') as [-> | Hk].
  - exfalso. apply Hnotin. now left.
  - rewrite IH; [reflexivity |]. intros Hin. apply Hnotin. now right.
Qed.

(** A comprehension over items of distinct keys is the list of the items. *)
Lemma dict_comprehension_distinct {V} (l : list (string * V)) :
  NoDup (map fst l) -> dict_comprehension String.eqb fst snd l = l.
Proof.
  unfold dict_comprehension.
  assert (Hgen : forall d,
    NoDup (map fst (d ++ l)) ->
    fold_left (fun d x => dict_set String.eqb (fst x) (snd x) d) l d = d ++ l).
  { induction l as [|[k v] l IH]; intros d Hnd; simpl.
    - now rewrite app_nil_r.
    - rewrite dict_set_fresh.
      + rewrite IH; rewrite <- app_assoc; [reflexivity | exact Hnd].
      + rewrite map_app in Hnd. apply NoDup_remove_2 in Hnd.
        intros Hin. apply Hnd. apply in_or_app. now left. }
  intros Hnd. exact (Hgen [] Hnd).
Qed.

Lemma dict_get_In {V} k (v : V) d :
  NoDup (keys d) -> In (k, v) d -> dict_get String.eqb k d = Some v.
Proof.
  unfold keys. induction d as [|[k' v'] d IH]; simpl; [intros _ [] |].
  intros Hnd [Heq | Hin]; inversion Hnd as [|? ? Hnotin Hnd']; subst.
  - injection Heq as -> ->. now rewrite String.eqb_refl.
  - destruct (String.eqb_spec k k') as [-> | Hk]; [| auto].
    exfalso. apply Hnotin. exact (in_map fst _ _ Hin).
Qed.

Lemma colour_percentages_inr X hsv area percentages :
  outcome
    (for_each (fun '(color_name, (lower, upper)) =>
       bind (call ev_inRange (cv2_inRange X hsv lower upper)) (fun mask =>
       bind (call ev_countNonZero (cv2_countNonZero X mask)) (fun count =>
       bind (true_div count area) (fun ratio =>
       ret (color_name, (ratio * 100)%float)))))
       ImageRecognitionEngine.color_ranges) = inr percentages ->
  map fst percentages = ["rouge"; "jaune"; "vert"; "bleu"].
Proof.
  intros H. apply for_each_inr in H.
  change ["rouge"; "jaune"; "vert"; "bleu"]
    with (map fst ImageRecognitionEngine.color_ranges).
  induction H as [|[name [lo up]] y ranges ys Hy _ IH]; [reflexivity |].
  apply bind_inr in Hy as (mask & _ & Hy).
  apply bind_inr in Hy as (count & _ & Hy).
  apply bind_inr in Hy as (ratio & _ & Hy).
  injection Hy as <-. simpl. now rewrite IH.
Qed.

(** X14.  A basic analysis that returns reports the percentages of the
    four colours rouge, jaune, vert and bleu, in this order, the
    dimensions read off the shape, and a count of significant contours
    between zero and the total count.  Its dominant colour is
    "indéterminé" or one of the four whose percentage exceeds 5 and is
    exceeded by no other percentage. *)
Theorem basic_analysis_report :
  forall (X : Externals) (image : ndarray) (r : BasicAnalysis.t),
    outcome (ImageRecognitionEngine._basic_image_analysis X image) = inr r ->
    let distribution := Colors.distribution (BasicAnalysis.colors r) in
    let dominant := Colors.dominant (BasicAnalysis.colors r) in
    keys distribution = ["rouge"; "jaune"; "vert"; "bleu"]
    /\ (exists channels,
           shape image
           = [Dimensions.height (BasicAnalysis.dimensions r);
              Dimensions.width (BasicAnalysis.dimensions r); channels])
    /\ 0 <= Contours.significant (BasicAnalysis.contours r)
         <= Contours.total (BasicAnalysis.contours r)
    /\ (dominant = "indéterminé"
        \/ exists percentage,
             dict_get String.eqb dominant distribution = Some percentage
             /\ (5 <? percentage)%float = true
             /\ Forall (fun kv => (percentage <? snd kv)%float = false)
                  distribution).
Proof.
  intros X image r H.
  unfold ImageRecognitionEngine._basic_image_analysis in H.
  apply bind_inr in H as ([height width] & Hshape & H).
  apply bind_inr in H as (gray & _ & H).
  apply bind_inr in H as (edges & _ & H).
  apply bind_inr in H as (contours & _ & H).
  apply bind_inr in H as (areas & Hareas & H).
  apply bind_inr in H as (hsv & _ & H).
  apply bind_inr in H as (percentages & Hpercent & H).
  apply bind_inr in H as ([name percentage] & Hbest & H).
  injection H as <-. cbn.
  apply colour_percentages_inr in Hpercent.
  assert (Hnd : NoDup (map fst percentages)).
  { rewrite Hpercent. repeat constructor; simpl; intuition discriminate. }
  rewrite (dict_comprehension_distinct percentages Hnd) in *.
  apply max_by_key_inr in Hbest as [Hin Hmax]. cbn [snd] in Hmax.
  split; [exact Hpercent | split; [| split]].
  - apply unpack_shape_inr in Hshape as [channels Hshape]. now exists channels.
  - apply for_each_inr in Hareas. rewrite (Forall2_length Hareas).
    pose proof (filter_length_le (fun a => (500 <? a)%float) areas). lia.
  - destruct (5 <? percentage)%float eqn:E; [| now left].
    right. exists percentage. split; [| split; trivial].
    apply dict_get_In; assumption.
Qed.

(** ** The label table file *)

Lemma remove_char_chars c s a :
  In a (chars (remove_char c s)) <-> In a (chars s) /\ a <> c.
Proof.
  unfold chars. induction s as [|b s IH]; simpl; [tauto |].
  destruct (Ascii.eqb_spec b c) as [-> | Hb]; simpl; rewrite IH.
  - split; [tauto |]. intros [[-> | H] Ha]; tauto.
  - split; [| tauto]. intros [-> | H]; tauto.
Qed.

Lemma dict_set_Forall (P : Z * string -> Prop) k v d :
  P (k, v) -> Forall P d -> Forall P (dict_set Z.eqb k v d).
Proof.
  intros Hkv. induction 1 as [|[k' v'] d Hx Hd IH]; simpl.
  - now repeat constructor.
  - destruct (Z.eqb_spec k k') as [-> | Hk]; constructor; auto.
Qed.

Section LoadLabelsFacts.
Variable str_strip : string -> string.
Variable int_of_str : string -> option Z.

Abbreviation step := (load_labels_line str_strip int_of_str).
Abbreviation loop := (load_labels_lines str_strip int_of_str).
Abbreviation pairs := (paired str_strip int_of_str).
Abbreviation known := (loop_invariant str_strip int_of_str).

Lemma known_step labels seen state line state' :
  known labels seen state ->
  step state line = inr state' ->
  known labels (seen ++ [line]) state'.
Proof.
  intros [Htable Hpending] Hstep.
  assert (Hkeep : Forall (fun kv => In kv labels
            \/ forall more, pairs ((seen ++ [line]) ++ more) kv)
            (fst state)).
  { eapply Forall_impl; [| exact Htable].
    intros kv [Hin | Hall]; [now left | right].
    intros more. rewrite <- app_assoc. apply Hall. }
  unfold load_labels_line in Hstep.
  destruct state as [table current_id]. cbn [fst snd] in *.
  destruct (contains "id:" (str_strip line)) eqn:Eid.
  - destruct (int_of_str _) as [id|] eqn:Eint; [| discriminate].
    injection Hstep as <-. split; [exact Hkeep |]. cbn [snd].
    intros id' [= <-]. exists seen, line, []. repeat split; auto.
  - destruct (contains "name:" (str_strip line)) eqn:Ename.
    + destruct current_id as [id|]; injection Hstep as <-;
        (split; [| discriminate]); [| exact Hkeep]. cbn [fst].
      apply dict_set_Forall; [| exact Hkeep]. right.
      destruct (Hpending id eq_refl)
        as (before & id_line & between & -> & Hid & Hint & Hbetween).
      intros more. exists before, id_line, between, line, more.
      repeat split; auto.
      * rewrite <- !app_assoc. reflexivity.
      * unfold is_name_line. now rewrite Eid, Ename.
    + injection Hstep as <-. split; [exact Hkeep |]. cbn [snd].
      intros id Hid.
      destruct (Hpending id Hid)
        as (before & id_line & between & -> & Hidl & Hint & Hbetween).
      exists before, id_line, (between ++ [line]).
      repeat split; auto.
      * rewrite <- app_assoc. reflexivity.
      * apply Forall_app. split; [exact Hbetween |].
        repeat constructor; [exact Eid |].
        unfold is_name_line. now rewrite Eid, Ename.
Qed.

Lemma known_loop labels lines seen state :
  known labels seen state ->
  Forall (fun kv => In kv labels \/ pairs (seen ++ lines) kv)
    (fst (loop state lines)).
Proof.
  revert seen state.
  induction lines as [|line lines IH]; intros seen state Hknown; simpl.
  - eapply Forall_impl; [| exact (proj1 Hknown)].
    intros kv [Hin | Hall]; [now left | right]. apply Hall.
  - destruct (step state line) as [e | state'] eqn:Hstep.
    + eapply Forall_impl; [| exact (proj1 Hknown)].
      intros kv [Hin | Hall]; [now left | right]. apply Hall.
    + replace (seen ++ line :: lines) with ((seen ++ [line]) ++ lines)
        by (rewrite <- app_assoc; reflexivity).
      apply IH. eapply known_step; eauto.
Qed.

Lemma load_labels_entries_paired lines labels :
  Forall (fun kv => In kv labels \/ pairs lines kv)
    (fst (_load_labels str_strip int_of_str (inr lines) labels)).
Proof.
  apply (known_loop labels lines [] (labels, None)). split.
  - apply Forall_forall. intros kv Hin. now left.
  - discriminate.
Qed.

(** The loop over lines whose ids are numbers ends without an exception,
    in a state from which the loop over further lines goes on. *)
Lemma loop_through before :
  ids_are_numbers str_strip int_of_str before ->
  forall state, exists state',
    loop state before = (fst state', None)
    /\ forall rest, loop state (before ++ rest) = loop state' rest.
Proof.
  induction 1 as [|line before Hline _ IH]; intros state.
  - exists state. split; reflexivity.
  - assert (Hstep : exists state', step state line = inr state').
    { unfold load_labels_line. destruct state as [table current_id].
      unfold is_id_line, id_of_line in Hline.
      destruct (contains "id:" (str_strip line)).
      - destruct (int_of_str _); [eauto | now destruct Hline].
      - destruct (contains "name:" (str_strip line)); [| eauto].
        destruct current_id; eauto. }
    destruct Hstep as [state1 Hstep].
    destruct (IH state1) as (state' & Hend & Hrest).
    exists state'. simpl. rewrite Hstep. split; [exact Hend |].
    intros rest. apply Hrest.
Qed.

Lemma step_bad_id state line :
  is_id_line str_strip line = true ->
  id_of_line str_strip int_of_str line = None ->
  exists message, step state line = inl (Exception "ValueError" message).
Proof.
  unfold is_id_line, id_of_line, load_labels_line.
  intros Hid Hint. destruct state as [table current_id].
  rewrite Hid, Hint. eauto.
Qed.

Lemma loop_raises_iff lines state :
  snd (loop state lines) = None
  <-> ids_are_numbers str_strip int_of_str lines.
Proof.
  split.
  - revert state. induction lines as [|line lines IH]; intros state H.
    + constructor.
    + simpl in H.
      destruct (step state line) as [e | state'] eqn:Hstep; [discriminate |].
      constructor; [| eapply IH; exact H].
      intros Hid Hint.
      destruct (step_bad_id state line Hid Hint) as [message Hbad].
      congruence.
  - intros H. destruct (loop_through lines H state) as (state' & Hend & _).
    now rewrite Hend.
Qed.
End LoadLabelsFacts.

(** X15.  Every entry of the label table after [_load_labels] was in the
    table before, or pairs the number of an id line of the file with the
    name of the next name line, no other id or name line standing
    between them; such a name holds no quote character. *)
Theorem load_labels_pairs_id_with_next_name :
  forall (str_strip : string -> string) (int_of_str : string -> option Z)
         (lines : list string) (labels : dict Z string),
    Forall (fun entry =>
              In entry labels
              \/ (paired str_strip int_of_str lines entry
                  /\ ~ In single_quote (chars (snd entry))
                  /\ ~ In double_quote (chars (snd entry))))
      (fst (_load_labels str_strip int_of_str (inr lines) labels)).
Proof.
  intros strip int lines labels.
  eapply Forall_impl; [| apply load_labels_entries_paired].
  intros [id name] [Hin | Hpair]; [now left | right].
  split; [exact Hpair |].
  destruct Hpair as (? & ? & ? & name_line & ? & _ & _ & _ & _ & _ & Hname).
  cbn [snd] in *. rewrite Hname. unfold name_of_line.
  split; intros Hq.
  - apply remove_char_chars in Hq as [Hq _].
    apply remove_char_chars in Hq as [_ Hq]. now apply Hq.
  - apply remove_char_chars in Hq as [_ Hq]. now apply Hq.
Qed.

(** X16.  [_load_labels] on a file that could be read raises an exception
    if and only if [int] refuses the last field of some id line. *)
Theorem load_labels_raises_iff_bad_id :
  forall (str_strip : string -> string) (int_of_str : string -> option Z)
         (lines : list string) (labels : dict Z string),
    snd (_load_labels str_strip int_of_str (inr lines) labels) <> None
    <-> ~ ids_are_numbers str_strip int_of_str lines.
Proof.
  intros strip int lines labels. simpl.
  now rewrite loop_raises_iff.
Qed.

(** X17.  At the first id line whose last field [int] refuses,
    [_load_labels] raises a ValueError and leaves the table as the lines
    before that line make it: the lines after it are not read. *)
Theorem load_labels_stops_at_first_bad_id :
  forall (str_strip : string -> string) (int_of_str : string -> option Z)
         (before after : list string) (bad : string)
         (labels : dict Z string),
    ids_are_numbers str_strip int_of_str before ->
    is_id_line str_strip bad = true ->
    id_of_line str_strip int_of_str bad = None ->
    exists message,
      _load_labels str_strip int_of_str (inr (before ++ bad :: after)) labels
      = (fst (_load_labels str_strip int_of_str (inr before) labels),
         Some (Exception "ValueError" message)).
Proof.
  intros strip int before after bad labels Hbefore Hid Hint. simpl.
  destruct (loop_through strip int before Hbefore (labels, None))
    as (state' & Hend & Hrest).
  destruct (step_bad_id strip int state' bad Hid Hint) as [message Hbad].
  exists message. rewrite Hrest, Hend. simpl. now rewrite Hbad.
Qed.

(* ================================================================== *)
(** * The further properties at concrete inputs *)

(** Of the three rows of the sample detector the two above 0.5 come out. *)
Lemma model_based_detections_witness :
  exists r,
    outcome (NumpyComparison._model_based_analysis workstation
               binary64_greater workstation_engine sample_image) = inr r
    /\ ModelAnalysis.detected_count r = 2.
Proof.
  assert (H : exists r,
    outcome (NumpyComparison._model_based_analysis workstation
               binary64_greater workstation_engine sample_image) = inr r)
    by (eexists; vm_compute; reflexivity).
  destruct H as [r H]. exists r. split; [exact H |].
  destruct (model_based_detections_are_rows_passing_the_test workstation
              binary64_greater workstation_engine sample_image r H)
    as (height & width & channels & network & blob & rows
        & _ & Hnet & Hblob & Hrows & _ & Hcount & _).
  cbn in Hnet. injection Hnet as <-.
  cbn in Hblob. injection Hblob as <-.
  cbn in Hrows. injection Hrows as <-.
  rewrite Hcount. reflexivity.
Defined.

Lemma model_based_returns_witness :
  (exists r,
      outcome (NumpyComparison._model_based_analysis workstation
                 binary64_greater workstation_engine sample_image) = inr r)
  <-> Forall (fun row =>
                confident binary64_greater workstation_engine row = true ->
                float_trunc (Row.class_id row) <> None)
        [sample_row 1%float 0.875%float; sample_row 2%float 0.5%float;
         sample_row 7%float 0.75%float].
Proof.
  apply (model_based_returns_iff_class_ids_finite workstation
           binary64_greater workstation_engine sample_image 4 4 3
           sample_net sample_image);
    reflexivity.
Defined.

(** The grey-level image is refused although a model is loaded. *)
Lemma analyze_image_rejects_grey_witness :
  ImageRecognitionEngine.analyze_image workstation workstation_engine None
    (Some grey_image)
  = ([], inr (AnalysisError (ImageRecognitionEngine.error_result
       "Erreur lors de l'analyse de l'image: not enough values to unpack (expected 3, got 2)"))).
Proof.
  destruct (analyze_image_rejects_other_shapes workstation
              workstation_engine grey_image eq_refl)
    as (e & Hunpack & Hmemory & _).
  - discriminate.
  - cbv in Hunpack. injection Hunpack as <-.
    exact (Hmemory None eq_refl).
Defined.

Lemma analyze_image_zero_area_witness :
  exists e,
    outcome (ImageRecognitionEngine.analyze_image workstation basic_engine
               None (Some empty_image))
    = inr (AnalysisError (ImageRecognitionEngine.error_result
        ("Erreur lors de l'analyse de l'image: " ++ exc_str e)%string)).
Proof.
  apply (analyze_image_zero_area_is_an_error workstation basic_engine
           empty_image 0 4 3 None); reflexivity.
Defined.

(** A class named "Rouille" brings the corrosion advisory; a class that
    only mentions a "fissure" does not bring the crack advisory. *)
Lemma generate_diagnoses_rules_witness :
  In corrosion_advisory
    (ImageRecognitionEngine._generate_diagnoses offline
       [detection_of_class "Rouille";
        detection_of_class "Fissure du pare-brise"])
  /\ ~ In crack_advisory
         (ImageRecognitionEngine._generate_diagnoses offline
            [detection_of_class "Rouille";
             detection_of_class "Fissure du pare-brise"]).
Proof.
  assert (Hne : [detection_of_class "Rouille";
                 detection_of_class "Fissure du pare-brise"] <> [])
    by discriminate.
  pose proof (generate_diagnoses_rule_by_rule offline _ Hne) as H.
  cbv zeta in H. destruct H as (_ & Hcorrosion & _ & Hcrack).
  split.
  - apply Hcorrosion. left. left. reflexivity.
  - intros Hin. apply Hcrack in Hin.
    destruct Hin as [Heq | [Heq | []]]; discriminate Heq.
Defined.

Lemma detect_anomalies_ties_witness :
  filter (fun a => (Anomaly.score a =? 0.9)%float)
    (ImageRecognitionEngine._detect_anomalies offline sample_labels)
  = filter (fun a => (Anomaly.score a =? 0.9)%float)
      (ImageRecognitionEngine.matching_anomalies offline
         ImageRecognitionEngine.anomaly_keywords sample_labels).
Proof.
  apply (detect_anomalies_ties_in_keyword_order offline sample_labels
           0.9%float).
  repeat constructor.
Defined.

Lemma sorted_labels_witness :
  exists r,
    outcome (ImageRecognitionEngine.detect_labels workstation
               workstation_engine "car.jpg") = inr (Labels r)
    /\ Permutation (map entry_item (LabelAnalysis.sorted_labels r))
         (LabelAnalysis.labels r).
Proof.
  assert (H : exists r,
    outcome (ImageRecognitionEngine.detect_labels workstation
               workstation_engine "car.jpg") = inr (Labels r))
    by (eexists; vm_compute; reflexivity).
  destruct H as [r H]. exists r. split; [exact H |].
  exact (proj1 (sorted_labels_is_labels_sorted workstation
                  workstation_engine "car.jpg" r H)).
Defined.

Lemma standalone_flags_witness :
  exists r,
    outcome (detect_labels workstation "car.jpg") = inr (LabelsDetected r)
    /\ incl (LabelDetection.anomalies r)
         (ImageRecognitionEngine._detect_anomalies workstation
            (LabelDetection.labels r)).
Proof.
  assert (H : exists r,
    outcome (detect_labels workstation "car.jpg") = inr (LabelsDetected r))
    by (eexists; vm_compute; reflexivity).
  destruct H as [r H]. exists r. split; [exact H |].
  exact (proj1 (proj2 (standalone_flags_are_engine_flags workstation
                         "car.jpg" r H))).
Defined.


Lemma detect_labels_unreadable_file_witness :
  ImageRecognitionEngine.detect_labels offline basic_engine "car.jpg"
  = ([ev_open_read "car.jpg"],
     inr (LabelError (vision_error
            (Exception "FileNotFoundError" "No such file or directory")))).
Proof.
  exact (proj1 (detect_labels_unreadable_file offline "car.jpg" _ eq_refl)
           basic_engine eq_refl).
Defined.

Lemma basic_analysis_report_witness :
  exists r,
    outcome (ImageRecognitionEngine._basic_image_analysis workstation
               sample_image) = inr r
    /\ keys (Colors.distribution (BasicAnalysis.colors r))
       = ["rouge"; "jaune"; "vert"; "bleu"]
    /\ 0 <= Contours.significant (BasicAnalysis.contours r)
         <= Contours.total (BasicAnalysis.contours r).
Proof.
  assert (H : exists r,
    outcome (ImageRecognitionEngine._basic_image_analysis workstation
               sample_image) = inr r)
    by (eexists; vm_compute; reflexivity).
  destruct H as [r H]. exists r. split; [exact H |].
  pose proof (basic_analysis_report workstation sample_image r H) as Hreport.
  cbv zeta in Hreport. destruct Hreport as (Hkeys & _ & Hcount & _).
  split; assumption.
Defined.

(** The file of the first item followed by an item whose id is "deux":
    the first item is in the table, the ValueError ends the reading. *)
Lemma load_labels_stops_witness :
  exists message,
    _load_labels ascii_strip decimal_int
      (inr (first_item_lines ++ bad_id_line :: ["  name: 'Pneu'"; "}"])) []
    = ([(1, "Disque de Frein")], Some (Exception "ValueError" message)).
Proof.
  destruct (load_labels_stops_at_first_bad_id ascii_strip decimal_int
              first_item_lines ["  name: 'Pneu'"; "}"] bad_id_line [])
    as [message Hmessage].
  - repeat constructor; vm_compute; intros; discriminate.
  - reflexivity.
  - reflexivity.
  - exists message. exact Hmessage.
Defined.

(** A steering wheel is named by no rule: the generic message alone. *)
Lemma generate_diagnoses_generic_witness :
  [detection_of_class "Volant"] <> []
  /\ forall word,
       In word ["rouille"; "corrosion"; "fuite"; "liquide"; "fissure"] ->
       ~ In word (detected_classes offline [detection_of_class "Volant"]).
Proof.
  pose proof (generate_diagnoses_never_empty offline
                [detection_of_class "Volant"]) as H.
  cbv zeta in H. destruct H as (_ & _ & Hgeneric).
  destruct (proj1 Hgeneric eq_refl) as (Hne & _ & Hwords).
  split; assumption.
Defined.


Lemma detect_labels_without_labels_witness :
  exists r,
    outcome (ImageRecognitionEngine.detect_labels workstation quiet_engine
               "car.jpg") = inr (Labels r)
    /\ LabelAnalysis.anomalies r = []
    /\ LabelAnalysis.anomalies_detected r = false
    /\ LabelAnalysis.car_related r = false
    /\ LabelAnalysis.sorted_labels r = [].
Proof.
  assert (H : exists r,
    outcome (ImageRecognitionEngine.detect_labels workstation quiet_engine
               "car.jpg") = inr (Labels r)
    /\ LabelAnalysis.labels r = [])
    by (eexists; split; vm_compute; reflexivity).
  destruct H as (r & H & Hlabels). exists r. split; [exact H |].
  exact (proj1 (detect_labels_without_labels workstation)
           quiet_engine "car.jpg" r H Hlabels).
Defined.

(** Both entries of the sample file pair an id line with the name line
    that follows it, and their names have lost their quotes. *)
Lemma load_labels_pairs_witness :
  Forall (fun entry =>
            In entry []
            \/ (paired ascii_strip decimal_int sample_label_lines entry
                /\ ~ In single_quote (chars (snd entry))
                /\ ~ In double_quote (chars (snd entry))))
    [(1, "Disque de Frein"); (2, "Pneu")].
Proof.
  exact (load_labels_pairs_id_with_next_name ascii_strip decimal_int
           sample_label_lines []).
Defined.

Lemma load_labels_raises_witness :
  snd (_load_labels ascii_strip decimal_int
         (inr (first_item_lines ++ [bad_id_line])) []) <> None.
Proof.
  apply (proj2 (load_labels_raises_iff_bad_id ascii_strip decimal_int
                  (first_item_lines ++ [bad_id_line]) [])).
  intros H.
  apply (proj1 (Forall_forall _ _) H bad_id_line).
  - apply in_or_app. right. left. reflexivity.
  - reflexivity.
  - reflexivity.
Defined.
